(** * 3d-cinemagraphy: the rendering driver [demo.py]

    A shallow embedding of the driver script: the construction of the
    input data ([generate_mask_hints_from_user], [get_input_data]) and the
    per-frame loop of [render].  Tensors are modelled as a shape together
    with an element accessor, Python slices by the index adjustment that
    CPython, NumPy and PyTorch share, IEEE-754 values by the Standard
    Library's [spec_float], and the collaborators that live outside the
    script (depth estimation, flow integration, warping, rasterisation,
    file access) are the variables of the sections that use them. *)

From Stdlib Require Import String Ascii.
From Stdlib Require Import ZArith List Bool Lia.
From Stdlib Require Import SpecFloat.
Import ListNotations.

Local Open Scope Z_scope.

(** ** Python exceptions *)

Module Py.

(** An exception is identified by the name of its class. *)
Definition exn := string.

Definition IndexError : exn := "IndexError"%string.
Definition RuntimeError : exn := "RuntimeError"%string.
Definition TypeError : exn := "TypeError"%string.

Inductive result (A : Type) : Type :=
| Ok (a : A)
| Raise (e : exn).
Arguments Ok {A} a.
Arguments Raise {A} e.

Definition bind {A B} (r : result A) (k : A -> result B) : result B :=
  match r with
  | Ok a => k a
  | Raise e => Raise e
  end.

Definition raised {A} (r : result A) : bool :=
  match r with Ok _ => false | Raise _ => true end.

(** [os.path.join(a, b)] of [posixpath]. *)
Definition starts_with_sep (s : string) : bool :=
  match s with
  | String c _ => Ascii.eqb c "/"%char
  | EmptyString => false
  end.

Fixpoint ends_with_sep (s : string) : bool :=
  match s with
  | EmptyString => false
  | String c EmptyString => Ascii.eqb c "/"%char
  | String _ rest => ends_with_sep rest
  end.

Definition path_join (a b : string) : string :=
  if starts_with_sep b then b
  else if (String.eqb a EmptyString || ends_with_sep a)%bool then (a ++ b)%string
  else (a ++ "/" ++ b)%string.

End Py.
Import Py.

Declare Scope py_scope.
Notation "x <- r ;; k" := (Py.bind r (fun x => k))
  (at level 61, r at next level, right associativity) : py_scope.
Notation "' p <- r ;; k" := (Py.bind r (fun p => k))
  (at level 61, p pattern, r at next level, right associativity) : py_scope.
Local Open Scope py_scope.

(** ** Python slices *)

Module PySlice.

(** One bound of [a[start:stop]] on a sequence of length [n], step 1:
    a negative bound counts from the end and every bound is clipped to
    [0..n]. *)
Definition adjust_index (i n : Z) : Z :=
  if i <? 0 then Z.max 0 (i + n) else Z.min i n.

(** The half-open range of positions [lo, hi) selected by
    [a[start:stop]]; [None] is an omitted bound.  The range is empty
    when the adjusted stop does not exceed the adjusted start. *)
Definition bounds (start stop : option Z) (n : nat) : nat * nat :=
  let len := Z.of_nat n in
  let lo := match start with None => 0 | Some s => adjust_index s len end in
  let hi := match stop with None => len | Some s => adjust_index s len end in
  (Z.to_nat lo, Z.to_nat (Z.max lo hi)).

End PySlice.

(** ** Tensors (NumPy arrays and PyTorch tensors) *)

Module Tensor.

(** A tensor is its shape and its elements, read by a multi-index.  Only
    the multi-indices inside the shape are meaningful. *)
Record ndarray (A : Type) : Type := mk_ndarray {
  shape : list nat;
  item : list nat -> A
}.
Arguments mk_ndarray {A} _ _.
Arguments shape {A} _.
Arguments item {A} _ _.

Definition ndim {A} (t : ndarray A) : nat := length (shape t).

(** [len(t)]: the extent of the first dimension; a 0-d tensor has none. *)
Definition len {A} (t : ndarray A) : option nat :=
  match shape t with
  | [] => None
  | d :: _ => Some d
  end.

(** [numel]: the number of elements. *)
Definition numel {A} (t : ndarray A) : nat := fold_right Nat.mul 1%nat (shape t).

Definition full {A} (shp : list nat) (v : A) : ndarray A :=
  mk_ndarray shp (fun _ => v).

Definition full_like {A B} (t : ndarray A) (v : B) : ndarray B :=
  full (shape t) v.

(** Element-wise operations keep the shape. *)
Definition map {A B} (f : A -> B) (t : ndarray A) : ndarray B :=
  mk_ndarray (shape t) (fun ix => f (item t ix)).

(** The elements of a 1-d tensor, in order. *)
Definition tolist {A} (t : ndarray A) : list A :=
  match shape t with
  | [d] => List.map (fun i => item t [i]) (seq 0 d)
  | _ => []
  end.

(** [t[i]] for an integer [i]: a negative index counts from the end, an
    index outside the first dimension raises. *)
Definition getitem_int {A} (i : Z) (t : ndarray A) : result (ndarray A) :=
  match shape t with
  | [] => Raise IndexError
  | d :: rest =>
      let k := if i <? 0 then i + Z.of_nat d else i in
      if (0 <=? k) && (k <? Z.of_nat d)
      then Ok (mk_ndarray rest (fun ix => item t (Z.to_nat k :: ix)))
      else Raise IndexError
  end.

(** [t.squeeze()]: every dimension of extent 1 is removed.  The index of
    the squeezed tensor is put back among the removed positions. *)
Definition squeeze_shape (shp : list nat) : list nat :=
  filter (fun d => negb (Nat.eqb d 1)) shp.

Fixpoint unsqueeze_index (shp ix : list nat) : list nat :=
  match shp with
  | [] => []
  | d :: shp' =>
      if Nat.eqb d 1 then 0%nat :: unsqueeze_index shp' ix
      else match ix with
           | i :: ix' => i :: unsqueeze_index shp' ix'
           | [] => 0%nat :: unsqueeze_index shp' []
           end
  end.

Definition squeeze {A} (t : ndarray A) : ndarray A :=
  mk_ndarray (squeeze_shape (shape t))
             (fun ix => item t (unsqueeze_index (shape t) ix)).

(** [t.permute(dims)]: dimension [k] of the result is dimension
    [dims[k]] of [t]; the number of dimensions must match. *)
Fixpoint position (j : nat) (dims : list nat) : nat :=
  match dims with
  | [] => 0%nat
  | d :: dims' => if Nat.eqb d j then 0%nat else S (position j dims')
  end.

Definition permute_index (dims ix : list nat) : list nat :=
  List.map (fun j => nth (position j dims) ix 0%nat) (seq 0 (length dims)).

Definition permute {A} (dims : list nat) (t : ndarray A) : result (ndarray A) :=
  if Nat.eqb (length dims) (ndim t)
  then Ok (mk_ndarray (List.map (fun d => nth d (shape t) 0%nat) dims)
                      (fun ix => item t (permute_index dims ix)))
  else Raise RuntimeError.

(** A slice [start:stop]. *)
Definition slice : Type := option Z * option Z.

(** [t[s0, s1]]: basic slicing of the first two dimensions. *)
Definition getitem_slice2 {A} (s0 s1 : slice) (t : ndarray A) : result (ndarray A) :=
  match shape t with
  | d0 :: d1 :: rest =>
      let '(lo0, hi0) := PySlice.bounds (fst s0) (snd s0) d0 in
      let '(lo1, hi1) := PySlice.bounds (fst s1) (snd s1) d1 in
      Ok (mk_ndarray ((hi0 - lo0) :: (hi1 - lo1) :: rest)%nat
            (fun ix => match ix with
                       | i :: j :: r => item t ((lo0 + i) :: (lo1 + j) :: r)%nat
                       | _ => item t ix
                       end))
  | _ => Raise IndexError
  end.

(** [t[s] = v]: the slices of the first dimension selected by [s] are
    overwritten with the scalar [v]; a 0-d tensor cannot be sliced. *)
Definition setitem_slice {A} (s : slice) (v : A) (t : ndarray A) : result (ndarray A) :=
  match shape t with
  | [] => Raise IndexError
  | d :: _ =>
      let '(lo, hi) := PySlice.bounds (fst s) (snd s) d in
      Ok (mk_ndarray (shape t)
            (fun ix => match ix with
                       | i :: _ => if (Nat.leb lo i && Nat.ltb i hi)%bool then v else item t ix
                       | [] => item t ix
                       end))
  end.

(** [t[None]]: a new first dimension of extent 1. *)
Definition unsqueeze0 {A} (t : ndarray A) : ndarray A :=
  mk_ndarray (1%nat :: shape t) (fun ix => item t (tl ix)).

(** A matrix given by its rows, as [np.array] builds it. *)
Definition of_rows {A} (d : A) (rws : list (list A)) : ndarray A :=
  mk_ndarray [length rws; length (hd [] rws)]
             (fun ix => match ix with
                        | [i; j] => nth j (nth i rws []) d
                        | _ => d
                        end).

(** [[len(x) for x in ts]]; [len] of a 0-d tensor raises. *)
Fixpoint lens {A} (ts : list (ndarray A)) : result (list nat) :=
  match ts with
  | [] => Ok []
  | t :: ts' =>
      match len t with
      | None => Raise TypeError
      | Some d => ds <- lens ts' ;; Ok (d :: ds)
      end
  end.

(** [torch.cat(ts)] along the first dimension: the list is not empty and
    the tensors agree on every other dimension (the exemption PyTorch
    keeps for 1-d tensors of no element is left out). *)
Fixpoint shape_eqb (s1 s2 : list nat) : bool :=
  match s1, s2 with
  | [], [] => true
  | a :: s1', b :: s2' => Nat.eqb a b && shape_eqb s1' s2'
  | _, _ => false
  end.

Definition rows {A} (t : ndarray A) : nat := hd 0%nat (shape t).

Definition cat_compatible {A} (t0 t : ndarray A) : bool :=
  match shape t with
  | [] => false
  | _ :: rest => shape_eqb rest (tl (shape t0))
  end.

Fixpoint cat_item {A} (t0 : ndarray A) (ts : list (ndarray A)) (i : nat) (rest : list nat) : A :=
  match ts with
  | [] => item t0 (i :: rest)
  | t :: ts' =>
      if Nat.ltb i (rows t) then item t (i :: rest)
      else cat_item t0 ts' (i - rows t) rest
  end.

Definition cat {A} (ts : list (ndarray A)) : result (ndarray A) :=
  match ts with
  | [] => Raise RuntimeError
  | t0 :: _ =>
      if forallb (cat_compatible t0) ts
      then Ok (mk_ndarray (list_sum (List.map rows ts) :: tl (shape t0))
                 (fun ix => match ix with
                            | i :: rest => cat_item t0 ts i rest
                            | [] => item t0 []
                            end))
      else Raise RuntimeError
  end.

End Tensor.
Import Tensor.

(** ** IEEE-754 values *)

Module Float.

(** PyTorch's default element type is binary32, NumPy's is binary64. *)
Definition prec32 := 24.
Definition emax32 := 128.
Definition prec64 := 53.
Definition emax64 := 1024.

Definition pzero : spec_float := S754_zero false.

(** The binary64 value nearest to an integer. *)
Definition of_Z64 (z : Z) : spec_float := binary_normalize prec64 emax64 z 0 false.
Definition of_Z32 (z : Z) : spec_float := binary_normalize prec32 emax32 z 0 false.

Definition is_nan (x : spec_float) : bool :=
  match x with S754_nan => true | _ => false end.

(** A finite, strictly positive value. *)
Definition finite_pos (x : spec_float) : bool :=
  match x with S754_finite false _ _ => true | _ => false end.

(** A finite value that is not negative (either zero counts). *)
Definition finite_nonneg (x : spec_float) : bool :=
  match x with
  | S754_zero _ => true
  | S754_finite false _ _ => true
  | _ => false
  end.

Definition is_finite (x : spec_float) : bool :=
  match x with
  | S754_zero _ => true
  | S754_finite _ _ _ => true
  | _ => false
  end.

Definition div64 := SFdiv prec64 emax64.
Definition mul32 := SFmul prec32 emax32.
Definition add32 := SFadd prec32 emax32.
Definition sub32 := SFsub prec32 emax32.
Definition div32 := SFdiv prec32 emax32.

(** Conversion of a binary64 value to binary32 ([.float()]). *)
Definition to32 (x : spec_float) : spec_float :=
  match x with
  | S754_finite s m e => binary_round prec32 emax32 s m e
  | _ => x
  end.

(** The literal [1e-6], a binary64 value: the quotient of 1 by 10^6,
    correctly rounded. *)
Definition lit_1em6 : spec_float := div64 (of_Z64 1) (of_Z64 1000000).

(** [np.maximum(a, b)] on one element: a NaN in [a] is propagated,
    otherwise [a] is kept when [a > b]. *)
Definition np_maximum (a b : spec_float) : spec_float :=
  if is_nan a then a
  else if SFltb b a then a else b.

(** Truncation towards zero, and [astype(np.uint8)]: the integer part
    of the value, reduced to 8 bits (C leaves the conversion of a value
    outside [0, 256) undefined; a non-finite value is taken to 0). *)
Definition trunc (x : spec_float) : Z :=
  match x with
  | S754_finite s m e =>
      let mag := Z.shiftl (Zpos m) e in
      if s then - mag else mag
  | _ => 0
  end.

Definition astype_uint8 (x : spec_float) : Z := (trunc x) mod 256.

(** 64-bit integer tensors: construction from a Python integer raises
    when the value does not fit, arithmetic wraps around. *)
Definition wrap64 (z : Z) : Z := (z + 2 ^ 63) mod 2 ^ 64 - 2 ^ 63.

Definition torch_long (z : Z) : result Z :=
  if (- 2 ^ 63 <=? z) && (z <? 2 ^ 63) then Ok z else Raise RuntimeError.

End Float.

(** ** The driver *)

Module Demo.

(** The command-line arguments [render] and [get_input_data] read. *)
Record Args : Type := mk_Args {
  input_dir : string;
  config_path : string;
  local_rank : Z;
  flow_scale : spec_float;
  ds_factor : spec_float;
  dpt_model_path : string;
  dpt_model_type : string;
  n_frames : Z;
  x_motion : spec_float
}.

(** The [data] section of the configuration file. *)
Record DataConfig : Type := mk_DataConfig {
  motionH : Z;
  motionW : Z
}.

(** [generate_mask_hints_from_user]: both tensors are [torch.zeros]. *)
Definition generate_mask_hints_from_user (args : Args) (config : DataConfig)
  : ndarray spec_float * ndarray spec_float :=
  let mask := full [1; 1; 768; 768]%nat Float.pzero in
  let hint := full [1; 2; 768; 768]%nat Float.pzero in
  (mask, hint).

(** The camera intrinsics [get_input_data] builds from the height and the
    width of the source image: a NumPy array of integers, [//] is floor
    division. *)
Definition intrinsic (h w : Z) : list (list Z) :=
  [ [Z.max h w; 0; w / 2];
    [0; Z.max h w; h / 2];
    [0; 0; 1] ].

(** [np.eye(n)]. *)
Definition eye (n : nat) : list (list Z) :=
  List.map (fun i => List.map (fun j => if Nat.eqb i j then 1 else 0) (seq 0 n)) (seq 0 n).

Definition pose : list (list Z) := eye 4.

(** The depth map: [1. / np.maximum(src_disp, 1e-6)], element-wise on a
    binary64 array. *)
Definition clamp_disparity (d : spec_float) : spec_float :=
  Float.np_maximum d Float.lit_1em6.

Definition depth_of_disparity (src_disp : ndarray spec_float) : ndarray spec_float :=
  Tensor.map (fun d => Float.div64 (Float.of_Z64 1) (clamp_disparity d)) src_disp.

(** The dictionary [get_input_data] returns. *)
Record InputData : Type := mk_InputData {
  data_motion_rgbs : ndarray spec_float;
  data_src_img : ndarray spec_float;
  data_src_depth : ndarray spec_float;
  data_hints : ndarray spec_float;
  data_mask : ndarray spec_float;
  data_intrinsic : ndarray spec_float;
  data_pose : ndarray spec_float;
  data_scale_shift : ndarray spec_float;
  data_src_rgb_file : list string
}.

Section GetInputData.

(** The file system and the collaborators that read and write it. *)
Variable World : Type.
Variable PILImage : Type.
Variable Image_open : World -> string -> result PILImage.
Variable imread : World -> string -> result (ndarray Z).
Variable run_dpt : World -> string -> string -> string -> string -> bool -> result World.

(** The image transforms, which live in other modules. *)
Variable motion_input_transform : DataConfig -> PILImage -> result (ndarray spec_float).
Variable to_tensor : ndarray spec_float -> result (ndarray spec_float).
Variable resize_img : ndarray spec_float -> spec_float -> result (ndarray spec_float).
Variable remove_noise_in_dpt_disparity : ndarray spec_float -> result (ndarray spec_float).

(** The two files the source photo is looked for in. *)
Definition png_file (args : Args) : string := path_join (input_dir args) "image.png".
Definition jpg_file (args : Args) : string := path_join (input_dir args) "image.jpg".

(** The [try]/[except] that opens the source photo.  The first
    component lists the files [Image.open] was called on, in order;
    the second is the file that was opened with its image. *)
Definition open_source_photo (w : World) (args : Args)
  : list string * result (string * PILImage) :=
  let img_file := png_file args in
  match Image_open w img_file with
  | Ok motion_rgb => ([img_file], Ok (img_file, motion_rgb))
  | Raise _ =>
      let img_file' := jpg_file args in
      match Image_open w img_file' with
      | Ok motion_rgb => ([img_file; img_file'], Ok (img_file', motion_rgb))
      | Raise e => ([img_file; img_file'], Raise e)
      end
  end.

(** [h, w = src_img.shape[:2]]. *)
Definition shape2 {A} (t : ndarray A) : result (Z * Z) :=
  match shape t with
  | h :: w :: _ => Ok (Z.of_nat h, Z.of_nat w)
  | _ => Raise "ValueError"%string
  end.

Definition get_input_data (w0 : World) (args : Args) (config : DataConfig)
           (video_out_folder : string) (ds : spec_float)
  : result (World * InputData) :=
  ' (img_file, motion_rgb) <- snd (open_source_photo w0 args) ;;
  motion_rgb <- motion_input_transform config motion_rgb ;;
  let '(mask, hints) := generate_mask_hints_from_user args config in
  let dpt_out_dir := path_join video_out_folder "dpt_depth" in
  src_img <- imread w0 img_file ;;
  let src_img := Tensor.map (fun z => Float.div64 (Float.of_Z64 z) (Float.of_Z64 255)) src_img in
  src_img <- resize_img src_img ds ;;
  ' (h, w) <- shape2 src_img ;;
  w1 <- run_dpt w0 (input_dir args) dpt_out_dir (dpt_model_path args)
                (dpt_model_type args) false ;;
  let disp_file := path_join dpt_out_dir "image.png" in
  src_disp <- imread w1 disp_file ;;
  let src_disp := Tensor.map (fun z => Float.div64 (Float.of_Z64 z) (Float.of_Z64 65535)) src_disp in
  src_disp <- remove_noise_in_dpt_disparity src_disp ;;
  let src_depth := depth_of_disparity src_disp in
  src_depth <- resize_img src_depth ds ;;
  let intrinsic := of_rows 0 (intrinsic h w) in
  let pose := of_rows 0 pose in
  src_img_t <- to_tensor src_img ;;
  src_depth_t <- to_tensor src_depth ;;
  hints0 <- getitem_int 0 hints ;;
  mask0 <- getitem_int 0 mask ;;
  Ok (w1, {|
    data_motion_rgbs := unsqueeze0 motion_rgb;
    data_src_img := unsqueeze0 (Tensor.map Float.to32 src_img_t);
    data_src_depth := unsqueeze0 (Tensor.map Float.to32 src_depth_t);
    data_hints := hints0;
    data_mask := mask0;
    data_intrinsic := unsqueeze0 (Tensor.map Float.of_Z32 intrinsic);
    data_pose := unsqueeze0 (Tensor.map Float.of_Z32 pose);
    data_scale_shift :=
      unsqueeze0 (mk_ndarray [2%nat]
        (fun ix => match ix with
                   | [O] => Float.of_Z32 1
                   | _ => Float.pzero
                   end));
    data_src_rgb_file := [img_file]
  |}).

End GetInputData.

(** *** [render]: the per-frame loop *)

(** [crop = 32]. *)
Definition crop : Z := 32.

(** Lines 186-187: the rendered image becomes an 8-bit frame with the
    border removed.
    [(255. * pred_img.squeeze().permute(1, 2, 0).numpy()).astype(np.uint8)]
    followed by [frame[crop:-crop, crop:-crop]]. *)
Definition assemble_frame (pred_img : ndarray spec_float) : result (ndarray Z) :=
  chw <- permute [1; 2; 0]%nat (squeeze pred_img) ;;
  let scaled := Tensor.map (Float.mul32 (Float.of_Z32 255)) chw in
  let frame := Tensor.map Float.astype_uint8 scaled in
  getitem_slice2 (Some crop, Some (- crop)) (Some crop, Some (- crop)) frame.

(** Lines 172-175: the side tags of the concatenated points.
    [all_masks] is the concatenation of the forward masks followed by
    the backward masks, [all_side_ids] starts as zeros of the shape of
    [all_masks.squeeze()], and [all_side_ids[-num_pts_2:] = 1] where
    [num_pts_2] is the number of backward points. *)
Definition side_ids {M P} (all_masks_f all_masks_b : list (ndarray M))
           (all_pts_b : list (ndarray P)) : result (ndarray M * ndarray Z) :=
  all_masks <- cat (all_masks_f ++ all_masks_b) ;;
  let all_side_ids := full_like (squeeze all_masks) 0 in
  ns <- lens all_pts_b ;;
  let num_pts_2 := Z.of_nat (list_sum ns) in
  all_side_ids <- setitem_slice (Some (- num_pts_2), None) 1 all_side_ids ;;
  Ok (all_masks, all_side_ids).

(** What one call of [compute_scene_flow_for_motion] returns, less the
    components [render] discards. *)
Record Warped : Type := mk_Warped {
  all_pts : list (ndarray spec_float);
  all_rgbas : list (ndarray spec_float);
  all_feats : list (ndarray spec_float);
  all_masks : list (ndarray spec_float)
}.

(** What [render] does that can be observed: a frame appended to
    [frames], and the frames handed to [imageio.mimwrite]. *)
Inductive event : Type :=
| Appended (middle_index : Z) (frame : ndarray Z)
| Written (video_out_file : string) (frames : list (ndarray Z)) (fps quality : Z).

(** [range(0, n)] and [enumerate]. *)
Definition range0 (n : Z) : list Z := List.map Z.of_nat (seq 0 (Z.to_nat n)).

Definition enumerate {A} (l : list A) : list (Z * A) :=
  combine (List.map Z.of_nat (seq 0 (length l))) l.

(** The indices and the frames of the [Appended] events of a run, in the
    order of the run. *)
Definition appended_indices (log : list event) : list Z :=
  flat_map (fun e => match e with Appended i _ => [i] | Written _ _ _ _ => [] end) log.

Definition appended_frames (log : list event) : list (ndarray Z) :=
  flat_map (fun e => match e with Appended _ f => [f] | Written _ _ _ _ => [] end) log.

Definition is_appended (e : event) : Prop :=
  match e with Appended _ _ => True | Written _ _ _ _ => False end.

Section Render.

(** The static scene held by the renderer (coordinates, source points,
    layers, pose, source image) and the renderer's methods. *)
Variable Scene : Type.
Variable euler_integration : ndarray spec_float -> Z -> result (ndarray spec_float).
Variable compute_scene_flow_for_motion :
  Scene -> ndarray spec_float -> ndarray spec_float -> bool -> result Warped.
Variable render_pcd :
  ndarray spec_float -> ndarray spec_float -> ndarray spec_float -> ndarray spec_float ->
  ndarray Z -> ndarray spec_float -> spec_float -> Z -> string -> result (ndarray spec_float).
Variable define_camera_path : Z -> spec_float -> result (ndarray spec_float).
Variable true_divide : ndarray spec_float -> spec_float -> ndarray spec_float.
Variable format_float : spec_float -> string.
Variable mimwrite : string -> list (ndarray Z) -> Z -> Z -> result unit.

(** Lines 153-154: the forward and the backward displacement of the
    frame [middle_index].  The indices are 64-bit tensors. *)
Definition integrated_flows (flow : ndarray spec_float)
           (start_index end_index middle_index : Z)
  : result (ndarray spec_float * ndarray spec_float) :=
  flow_f <- euler_integration flow (Float.wrap64 (middle_index - start_index)) ;;
  flow_b <- euler_integration (Tensor.map SFopp flow)
              (Float.wrap64 (Float.wrap64 (end_index + 1) - middle_index)) ;;
  Ok (flow_f, flow_b).

(** Lines 150-151: the normalised time, computed on binary32 tensors. *)
Definition normalized_time (start_index end_index middle_index : Z) : spec_float :=
  Float.div32
    (Float.sub32 (Float.of_Z32 middle_index) (Float.of_Z32 start_index))
    (Float.add32 (Float.sub32 (Float.of_Z32 end_index) (Float.of_Z32 start_index))
                 (Float.of_Z32 1)).

(** The body of the loop over the time steps, lines 149-187. *)
Definition render_frame (scene : Scene) (flow T kernel : ndarray spec_float)
           (path_type : string) (start_index end_index : Z)
           (middle_index t_step : Z) : result (ndarray Z) :=
  middle_index <- Float.torch_long middle_index ;;
  let time := normalized_time start_index end_index middle_index in
  ' (flow_f, flow_b) <- integrated_flows flow start_index end_index middle_index ;;
  flow_f <- permute [0; 2; 3; 1]%nat flow_f ;;
  flow_b <- permute [0; 2; 3; 1]%nat flow_b ;;
  wf <- compute_scene_flow_for_motion scene flow_f kernel true ;;
  wb <- compute_scene_flow_for_motion scene flow_b kernel true ;;
  all_pts_flowed <- cat (all_pts wf ++ all_pts wb) ;;
  all_rgbas_flowed <- cat (all_rgbas wf ++ all_rgbas wb) ;;
  all_feats_flowed <- cat (all_feats wf ++ all_feats wb) ;;
  ' (all_masks, all_side_ids) <- side_ids (all_masks wf) (all_masks wb) (all_pts wb) ;;
  t <- getitem_int middle_index T ;;
  pred_img <- render_pcd all_pts_flowed all_rgbas_flowed all_feats_flowed
                all_masks all_side_ids t time t_step path_type ;;
  assemble_frame pred_img.

(** The loop itself: [frames] grows by one frame per time step, and a
    step that raises ends the run. *)
Fixpoint render_frames (body : Z -> Z -> result (ndarray Z))
         (steps : list (Z * Z)) (frames : list (ndarray Z))
  : list event * result (list (ndarray Z)) :=
  match steps with
  | [] => ([], Ok frames)
  | (middle_index, t_step) :: rest =>
      match body middle_index t_step with
      | Raise e => ([], Raise e)
      | Ok frame =>
          let '(log, r) := render_frames body rest (frames ++ [frame]) in
          (Appended middle_index frame :: log, r)
      end
  end.

(** Lines 130-193, from the flow and the scene that
    [renderer.compute_flow_and_inpaint] returned. *)
Definition render (args : Args) (video_out_folder : string) (scene : Scene)
           (flow : ndarray spec_float) : list event * result unit :=
  let flow := true_divide flow (flow_scale args) in
  let num_frames := n_frames args in
  let path_type := "side"%string in
  match define_camera_path num_frames (SFopp (x_motion args)) with
  | Raise e => ([], Raise e)
  | Ok T =>
      let kernel := full [5; 5]%nat (Float.of_Z32 1) in
      let T := Tensor.map Float.to32 T in
      let time_steps := range0 num_frames in
      match (s <- Float.torch_long 0 ;; e <- Float.torch_long (num_frames - 1) ;; Ok (s, e)) with
      | Raise e => ([], Raise e)
      | Ok (start_index, end_index) =>
          let body := render_frame scene flow T kernel path_type start_index end_index in
          match render_frames body (enumerate time_steps) [] with
          | (log, Raise e) => (log, Raise e)
          | (log, Ok frames) =>
              let video_out_file :=
                path_join video_out_folder
                  (path_type ++ "_flow_scale=" ++ format_float (flow_scale args) ++ ".mp4")%string in
              (log ++ [Written video_out_file frames 25 8],
               mimwrite video_out_file frames 25 8)
          end
      end
  end.

End Render.

(** *** Flow integration *)

(** Every multi-index of a shape, in row-major order. *)
Fixpoint indices (shp : list nat) : list (list nat) :=
  match shp with
  | [] => [[]]
  | d :: shp' => flat_map (fun i => List.map (cons i) (indices shp')) (seq 0 d)
  end.

Definition all_finite (t : ndarray spec_float) : bool :=
  forallb (fun ix => Float.is_finite (item t ix)) (indices (shape t)).

(** Modelled from the spec: one step of [euler_integration], which is a
    method of the renderer and not part of the script.  The displacement
    accumulates the velocity field, which is held constant and never
    sampled again at the displaced positions. *)
Definition euler_step (field disp : ndarray spec_float) : ndarray spec_float :=
  mk_ndarray (shape disp) (fun ix => Float.add32 (item disp ix) (item field ix)).

(** Modelled from the spec: the steps of [euler_integration], one after
    the other from a given displacement. *)
Fixpoint accumulate (steps : nat) (field disp : ndarray spec_float) : ndarray spec_float :=
  match steps with
  | O => disp
  | S k => accumulate k field (euler_step field disp)
  end.

(** Modelled from the spec: [euler_integration] is a method of the
    renderer, which is not part of the script.  The spec describes it as
    an explicit Euler scheme on a fixed field, for a signed step count
    [n]: the displacement starts at zero and accumulates the velocity
    field once per step; a step count of 0 yields the zero displacement
    for any field; an integration that has steps to make fails on a field
    with a value that is not finite.  A negative count accumulates the
    opposite field. *)
Definition euler_integration (field : ndarray spec_float) (n : Z)
  : result (ndarray spec_float) :=
  if n =? 0 then Ok (full_like field Float.pzero)
  else if all_finite field
       then Ok (accumulate (Z.abs_nat n)
                  (if n <? 0 then Tensor.map SFopp field else field)
                  (full_like field Float.pzero))
       else Raise "NonFiniteField"%string.

End Demo.

(** * Sample inputs

    Concrete tensors and stand-ins for the collaborators, on which the
    definitions above are evaluated. *)

Import Demo.

(** A field to integrate in the examples: two components on a 2x2 grid,
    every value 1.5. *)
Definition sample_flow : ndarray spec_float :=
  full [1; 2; 2; 2]%nat (S754_finite false 12582912 (-23)).

(** A forward pass with two points, a backward pass with none. *)
Definition two_masks : ndarray spec_float := full [2; 1]%nat (Float.of_Z32 1).
Definition no_masks : ndarray spec_float := full [0; 1]%nat (Float.of_Z32 1).
Definition no_points : ndarray spec_float := full [0; 3]%nat Float.pzero.

(** A disparity map with the values 0, 0.5 and the smallest positive
    binary64 value. *)
Definition sample_disparity : ndarray spec_float :=
  mk_ndarray [3%nat]
    (fun ix => match ix with
               | [O] => S754_zero false
               | [S O] => S754_finite false 4503599627370496 (-53)
               | _ => S754_finite false 1 (-1074)
               end).

(** A rendered image of 70 rows and 100 columns whose values are all
    0.75. *)
Definition sample_pred_img : ndarray spec_float :=
  full [1; 3; 70; 100]%nat (S754_finite false 12582912 (-24)).

(** A run on stand-ins for the collaborators: a warp that returns two
    points per pass, a rasteriser that returns a 66x68 image, a camera
    path with one pose per frame, an encoder that accepts everything;
    three frames are asked for. *)
Definition sample_warp (_ : unit) (flow kernel : ndarray spec_float) (with_inpainted : bool)
  : result Warped :=
  Ok (mk_Warped [full [2; 3]%nat Float.pzero] [full [2; 4]%nat Float.pzero]
                [full [2; 8]%nat Float.pzero] [full [2; 1]%nat (Float.of_Z32 1)]).

Definition sample_render_pcd (pts rgbas feats masks : ndarray spec_float) (side : ndarray Z)
           (t : ndarray spec_float) (time : spec_float) (t_step : Z) (path_type : string)
  : result (ndarray spec_float) :=
  Ok (full [1; 3; 66; 68]%nat (S754_finite false 12582912 (-24))).

Definition sample_camera_path (n : Z) (x : spec_float) : result (ndarray spec_float) :=
  Ok (full [Z.to_nat n; 3]%nat Float.pzero).

Definition sample_divide (t : ndarray spec_float) (s : spec_float) : ndarray spec_float :=
  Tensor.map (fun x => Float.div32 x s) t.

Definition sample_format (x : spec_float) : string := "1.0"%string.

Definition sample_mimwrite (file : string) (frames : list (ndarray Z)) (fps quality : Z)
  : result unit := Ok tt.

Definition sample_args : Args :=
  mk_Args "in"%string "config.yaml"%string 0 (Float.of_Z64 1) (Float.of_Z64 1)
          "dpt.pt"%string "dpt_large"%string 3 (Float.of_Z64 1).

Definition sample_run : list event * result unit :=
  render unit euler_integration sample_warp sample_render_pcd sample_camera_path
         sample_divide sample_format sample_mimwrite sample_args "in/output"%string tt
         sample_flow.

(** Stand-ins for the collaborators of [get_input_data]: a directory
    that holds [image.jpg] only, a 4x6 photo, a 4x6 disparity map, and
    transforms that leave their input as it is. *)
Definition sample_Image_open (w : unit) (file : string) : result unit :=
  if String.eqb file "in/image.jpg" then Ok tt else Raise "FileNotFoundError"%string.










Definition sample_render_pcd_failing (pts rgbas feats masks : ndarray spec_float)
           (side : ndarray Z) (t : ndarray spec_float) (time : spec_float) (t_step : Z)
           (path_type : string) : result (ndarray spec_float) :=
  if t_step =? 1 then Raise "OutOfMemoryError"%string
  else Ok (full [1; 3; 66; 68]%nat (S754_finite false 12582912 (-24))).

(** A backward pass with three points. *)
Definition three_masks : ndarray spec_float := full [3; 1]%nat (Float.of_Z32 1).
Definition three_points : ndarray spec_float := full [3; 3]%nat Float.pzero.

(** A pass with a single point. *)
Definition one_mask : ndarray spec_float := full [1; 1]%nat (Float.of_Z32 1).

(** * Properties *)

(** ** The mask and the hints *)

(** C8.  Whatever the arguments and the configuration,
    [generate_mask_hints_from_user] returns a mask of shape
    (1, 1, 768, 768) and a hint of shape (1, 2, 768, 768) whose elements
    are all zero; the result is the same for any two calls, so nothing a
    user supplies reaches it. *)
Theorem generate_mask_hints_all_zero :
  forall (args : Args) (config : DataConfig),
    let '(mask, hint) := generate_mask_hints_from_user args config in
    shape mask = [1; 1; 768; 768]%nat /\
    shape hint = [1; 2; 768; 768]%nat /\
    (forall ix, item mask ix = S754_zero false) /\
    (forall ix, item hint ix = S754_zero false) /\
    (forall args' config',
        generate_mask_hints_from_user args' config' = (mask, hint)).
Proof.
  intros args config. cbn.
  repeat split.
Qed.

(** ** Intrinsics and pose *)



(** ** Opening the source photo *)

Section OpenSourcePhoto.

Variable World : Type.
Variable PILImage : Type.
Variable Image_open : World -> string -> result PILImage.


Lemma open_source_photo_png :
  forall w args im,
    Image_open w (png_file args) = Ok im ->
    open_source_photo World PILImage Image_open w args = ([png_file args], Ok (png_file args, im)).
Proof.
  intros w args im H. unfold open_source_photo. rewrite H. reflexivity.
Qed.

Lemma open_source_photo_fallback :
  forall w args e,
    Image_open w (png_file args) = Raise e ->
    open_source_photo World PILImage Image_open w args =
    ([png_file args; jpg_file args],
     match Image_open w (jpg_file args) with
     | Ok im => Ok (jpg_file args, im)
     | Raise e' => Raise e'
     end).
Proof.
  intros w args e H. unfold open_source_photo. rewrite H.
  destruct (Image_open w (jpg_file args)); reflexivity.
Qed.

(** C9.  [image.png] in the input directory is opened first.  When that
    succeeds it is the source photo and nothing else is opened; when it
    raises, whatever the exception, [image.jpg] in the same directory is
    opened next and decides the outcome; so the step raises exactly when
    both attempts raise. *)
Theorem open_source_photo_png_then_jpg :
  forall (w : World) (args : Args),
    let run := open_source_photo World PILImage Image_open w args in
    hd_error (fst run) = Some (png_file args) /\
    (forall im, Image_open w (png_file args) = Ok im ->
                run = ([png_file args], Ok (png_file args, im))) /\
    (forall e, Image_open w (png_file args) = Raise e ->
               fst run = [png_file args; jpg_file args] /\
               snd run = match Image_open w (jpg_file args) with
                         | Ok im => Ok (jpg_file args, im)
                         | Raise e' => Raise e'
                         end) /\
    (raised (snd run) = true <->
     raised (Image_open w (png_file args)) = true /\
     raised (Image_open w (jpg_file args)) = true).
Proof.
  intros w args run. subst run.
  split.
  { unfold open_source_photo.
    destruct (Image_open w (png_file args)); [reflexivity|].
    destruct (Image_open w (jpg_file args)); reflexivity. }
  split.
  { intros im H. apply open_source_photo_png. exact H. }
  split.
  { intros e H. rewrite (open_source_photo_fallback _ _ _ H). split; reflexivity. }
  unfold open_source_photo.
  destruct (Image_open w (png_file args)) as [im|e]; cbn [snd raised].
  - split; [discriminate | intros [H _]; discriminate].
  - destruct (Image_open w (jpg_file args)) as [im'|e']; cbn [snd raised].
    + split; [discriminate | intros [_ H]; discriminate].
    + split; [intros _; split; reflexivity | intros _; reflexivity].
Qed.

End OpenSourcePhoto.

Lemma open_source_photo_png_then_jpg_witness :
  open_source_photo unit unit sample_Image_open tt sample_args =
  (["in/image.png"%string; "in/image.jpg"%string], Ok ("in/image.jpg"%string, tt)).
Proof.
  destruct (open_source_photo_png_then_jpg unit unit sample_Image_open tt sample_args)
    as [_ [_ [H _]]].
  destruct (H "FileNotFoundError"%string eq_refl) as [H1 H2].
  rewrite (surjective_pairing (open_source_photo unit unit sample_Image_open tt sample_args)).
  rewrite H1, H2. reflexivity.
Defined.

(** ** The input data *)


Section InputData.

Variable World : Type.
Variable PILImage : Type.
Variable Image_open : World -> string -> result PILImage.
Variable imread : World -> string -> result (ndarray Z).
Variable run_dpt : World -> string -> string -> string -> string -> bool -> result World.
Variable motion_input_transform : DataConfig -> PILImage -> result (ndarray spec_float).
Variable to_tensor : ndarray spec_float -> result (ndarray spec_float).
Variable resize_img : ndarray spec_float -> spec_float -> result (ndarray spec_float).
Variable remove_noise_in_dpt_disparity : ndarray spec_float -> result (ndarray spec_float).

Local Abbreviation input_data :=
  (get_input_data World PILImage Image_open imread run_dpt motion_input_transform
                  to_tensor resize_img remove_noise_in_dpt_disparity) (only parsing).



(** Without a photo nothing is built: when both files fail to open,
    [get_input_data] raises. *)
Lemma get_input_data_needs_photo :
  forall w0 args config out ds,
    raised (Image_open w0 (png_file args)) = true ->
    raised (Image_open w0 (jpg_file args)) = true ->
    raised (input_data w0 args config out ds) = true.
Proof.
  intros w0 args config out ds Hp Hj.
  unfold get_input_data, open_source_photo.
  destruct (Image_open w0 (png_file args)); [discriminate|].
  destruct (Image_open w0 (jpg_file args)); [discriminate|].
  reflexivity.
Qed.

End InputData.



(** ** Flow integration along the trajectory *)

Lemma wrap64_small : forall z, - 2 ^ 63 <= z < 2 ^ 63 -> Float.wrap64 z = z.
Proof.
  intros z Hz. unfold Float.wrap64.
  rewrite Z.mod_small by lia. lia.
Qed.

Lemma wrap64_sub_wrap64 :
  forall a b, Float.wrap64 (Float.wrap64 a - b) = Float.wrap64 (a - b).
Proof.
  intros a b. unfold Float.wrap64.
  f_equal.
  replace ((a + 2 ^ 63) mod 2 ^ 64 - 2 ^ 63 - b + 2 ^ 63)
    with ((a + 2 ^ 63) mod 2 ^ 64 + (- b)) by lia.
  rewrite Zplus_mod_idemp_l. f_equal. lia.
Qed.


Section IntegratedFlows.

Variable euler : ndarray spec_float -> Z -> result (ndarray spec_float).

(** C2.  On a trajectory whose first frame is [start] and whose last
    frame is [last], the frame [index] uses as forward displacement the
    Euler integration of the flow field for [index - start] steps, and as
    backward displacement the Euler integration of the negated flow field
    for [last - index + 1] steps. *)
Theorem integrated_flows_steps :
  forall (flow : ndarray spec_float) (start last index : Z),
    0 <= start -> start <= index -> index <= last -> last < 2 ^ 63 - 1 ->
    integrated_flows euler flow start last index =
    (flow_f <- euler flow (index - start) ;;
     flow_b <- euler (Tensor.map SFopp flow) (last - index + 1) ;;
     Ok (flow_f, flow_b)).
Proof.
  intros flow start last index H0 H1 H2 H3.
  unfold integrated_flows.
  rewrite wrap64_sub_wrap64.
  rewrite !wrap64_small by lia.
  replace (last + 1 - index) with (last - index + 1) by lia.
  reflexivity.
Qed.

End IntegratedFlows.

(** The negated field of C2 is the field with the sign of every element
    flipped. *)
Lemma negated_flow_item :
  forall (flow : ndarray spec_float) ix,
    shape (Tensor.map SFopp flow) = shape flow /\
    item (Tensor.map SFopp flow) ix = SFopp (item flow ix).
Proof. intros; split; reflexivity. Qed.

Lemma integrated_flows_steps_witness :
  integrated_flows euler_integration sample_flow 0 59 7 =
  (flow_f <- euler_integration sample_flow (7 - 0) ;;
   flow_b <- euler_integration (Tensor.map SFopp sample_flow) (59 - 7 + 1) ;;
   Ok (flow_f, flow_b)).
Proof.
  apply (integrated_flows_steps euler_integration sample_flow 0 59 7); lia.
Defined.

(** ** Step count 0 *)

Lemma euler_integration_zero_steps :
  forall field : ndarray spec_float,
    euler_integration field 0 = Ok (full_like field Float.pzero).
Proof. intros field. reflexivity. Qed.

(** C3.  With a step count of 0 the integration of any field returns a
    displacement of the field's shape whose every element is zero; and at
    the first frame ([index = start]) the forward displacement that
    [render] computes is that zero displacement, which stays all zero
    under the permutation applied before the warp. *)
Theorem euler_integration_zero_is_identity :
  forall (field : ndarray spec_float),
    (exists disp,
        euler_integration field 0 = Ok disp /\
        shape disp = shape field /\
        forall ix, item disp ix = S754_zero false) /\
    (forall start last,
        integrated_flows euler_integration field start last start =
        (flow_b <- euler_integration (Tensor.map SFopp field)
                     (Float.wrap64 (Float.wrap64 (last + 1) - start)) ;;
         Ok (full_like field (S754_zero false), flow_b))) /\
    (forall dims p ix,
        permute dims (full_like field (S754_zero false)) = Ok p ->
        item p ix = S754_zero false).
Proof.
  intros field. split; [|split].
  - exists (full_like field Float.pzero). repeat split.
  - intros start last. unfold integrated_flows.
    rewrite Z.sub_diag. reflexivity.
  - intros dims p ix H. unfold permute in H.
    destruct (Nat.eqb _ _); [|discriminate].
    injection H as <-. reflexivity.
Qed.

(** ** Side tags *)

(** C1, where the code departs from it.  With no backward point,
    [num_pts_2] is 0 and [all_side_ids[-0:]] is the whole vector: both
    forward points are tagged 1, where the last 0 entries tagged 1 would
    leave them at 0. *)
Theorem side_ids_backward_empty_tags_all :
  exists all_masks all_side_ids,
    side_ids [two_masks] [no_masks] [no_points] = Ok (all_masks, all_side_ids) /\
    lens [no_points] = Ok [0%nat] /\
    tolist all_side_ids = [1; 1] /\
    tolist all_side_ids <> repeat 0 (2 - 0) ++ repeat 1 0.
Proof.
  eexists. eexists. split; [reflexivity|].
  split; [reflexivity|].
  split; [reflexivity|].
  cbn. discriminate.
Qed.

Lemma map_constant :
  forall (A B : Type) (f : A -> B) (v : B) (l : list A),
    (forall x, In x l -> f x = v) -> List.map f l = repeat v (length l).
Proof.
  intros A B f v l. induction l as [|x l IH]; intros H; cbn.
  - reflexivity.
  - rewrite (H x) by (left; reflexivity).
    rewrite IH by (intros y Hy; apply H; right; exact Hy).
    reflexivity.
Qed.

Lemma tags_of_split :
  forall a b : nat,
    List.map (fun i => if (Nat.leb a i && Nat.ltb i (a + b))%bool then 1 else 0)
             (seq 0 (a + b)) =
    repeat 0 a ++ repeat 1 b.
Proof.
  intros a b.
  rewrite seq_app, map_app. f_equal.
  - rewrite (map_constant _ _ _ 0).
    + rewrite length_seq. reflexivity.
    + intros i Hi. apply in_seq in Hi.
      destruct (Nat.leb_spec a i); [lia | reflexivity].
  - rewrite (map_constant _ _ _ 1).
    + rewrite length_seq. reflexivity.
    + intros i Hi. apply in_seq in Hi.
      destruct (Nat.leb_spec a i); [|lia].
      destruct (Nat.ltb_spec i (a + b)); [reflexivity | lia].
Qed.

Lemma tags_of_threshold :
  forall n lo : nat, (lo <= n)%nat ->
    List.map (fun i => if (Nat.leb lo i && Nat.ltb i n)%bool then 1 else 0) (seq 0 n) =
    repeat 0 lo ++ repeat 1 (n - lo).
Proof.
  intros n lo Hlo.
  pose proof (tags_of_split lo (n - lo)) as E.
  replace (lo + (n - lo))%nat with n in E by lia.
  exact E.
Qed.

Lemma bounds_last :
  forall n k : nat, (1 <= k)%nat -> (k <= n)%nat ->
    PySlice.bounds (Some (- Z.of_nat k)) None n = ((n - k)%nat, n).
Proof.
  intros n k H1 H2. unfold PySlice.bounds, PySlice.adjust_index.
  destruct (Z.ltb_spec (- Z.of_nat k) 0); [|lia].
  f_equal; lia.
Qed.

Lemma bounds_minus_zero :
  forall n : nat, PySlice.bounds (Some (- Z.of_nat 0)) None n = (0%nat, n).
Proof.
  intros n. unfold PySlice.bounds, PySlice.adjust_index. cbn.
  f_equal; lia.
Qed.

Lemma cat_columns :
  forall (A : Type) (ts : list (ndarray A)),
    ts <> [] ->
    Forall (fun t => exists n, shape t = [n; 1%nat]) ts ->
    exists c, cat ts = Ok c /\ shape c = [list_sum (List.map rows ts); 1%nat].
Proof.
  intros A ts Hne Hall.
  destruct ts as [|t0 ts']; [congruence|].
  unfold cat.
  assert (Ht0 : tl (shape t0) = [1%nat]).
  { inversion Hall as [|? ? [n Hn] _]; subst. rewrite Hn. reflexivity. }
  assert (Hc : forallb (cat_compatible t0) (t0 :: ts') = true).
  { apply forallb_forall. intros t Hin.
    rewrite Forall_forall in Hall. destruct (Hall t Hin) as [n Hn].
    unfold cat_compatible. rewrite Hn, Ht0. reflexivity. }
  rewrite Hc. eexists. split; [reflexivity|].
  cbn [shape]. rewrite Ht0. reflexivity.
Qed.

(** X1.  When the backward pass has at least one point, the tags are as
    the spec has them: with [n] points in all (more than one) of which
    the last [k] are backward points, the first [n - k] tags are 0 and
    the last [k] are 1. *)
Lemma side_ids_backward_nonempty :
  forall (M P : Type) (masks_f masks_b : list (ndarray M)) (pts_b : list (ndarray P))
         (ns : list nat),
    masks_f ++ masks_b <> [] ->
    Forall (fun t => exists n, shape t = [n; 1%nat]) (masks_f ++ masks_b) ->
    lens pts_b = Ok ns ->
    list_sum ns = list_sum (List.map rows masks_b) ->
    (1 <= list_sum ns)%nat ->
    list_sum (List.map rows (masks_f ++ masks_b)) <> 1%nat ->
    exists all_masks all_side_ids,
      side_ids masks_f masks_b pts_b = Ok (all_masks, all_side_ids) /\
      tolist all_side_ids =
      repeat 0 (list_sum (List.map rows masks_f)) ++ repeat 1 (list_sum ns).
Proof.
  intros M P masks_f masks_b pts_b ns Hne Hall Hlens Hsum Hk Hn1.
  destruct (cat_columns M _ Hne Hall) as [c [Hcat Hshape]].
  unfold side_ids. rewrite Hcat. cbn [bind]. rewrite Hlens. cbn [bind].
  set (n := list_sum (List.map rows (masks_f ++ masks_b))) in *.
  assert (Hn : n = (list_sum (List.map rows masks_f) + list_sum ns)%nat).
  { unfold n. rewrite map_app, list_sum_app. lia. }
  assert (Hsq : squeeze_shape (shape c) = [n]).
  { rewrite Hshape. unfold squeeze_shape. cbn [filter].
    destruct (Nat.eqb_spec n 1); [contradiction|]. reflexivity. }
  unfold setitem_slice, full_like, full. cbn [shape squeeze].
  rewrite Hsq. cbn [fst snd].
  rewrite bounds_last by lia.
  eexists. eexists. split; [reflexivity|].
  unfold tolist. cbn [shape item].
  rewrite tags_of_threshold by lia.
  f_equal; f_equal; lia.
Qed.

(** ** The depth map *)

(** *** Binary64 rounding *)

Lemma digits2_pos_size : forall p, digits2_pos p = Pos.size p.
Proof. induction p; cbn; congruence. Qed.

Lemma Zdigits2_log2 : forall p, Zdigits2 (Zpos p) = Z.log2 (Zpos p) + 1.
Proof.
  intros p. cbn [Zdigits2]. rewrite digits2_pos_size.
  destruct p; cbn [Z.log2 Pos.size]; lia.
Qed.

Lemma Zdigits2_bounds :
  forall m, 0 < m -> 2 ^ (Zdigits2 m - 1) <= m < 2 ^ Zdigits2 m.
Proof.
  intros m Hm. destruct m as [|p|p]; try lia.
  rewrite Zdigits2_log2.
  pose proof (Z.log2_spec (Zpos p) ltac:(lia)) as H.
  replace (Z.log2 (Zpos p) + 1 - 1) with (Z.log2 (Zpos p)) by lia.
  replace (Z.log2 (Zpos p) + 1) with (Z.succ (Z.log2 (Zpos p))) by lia.
  exact H.
Qed.

Lemma Zdigits2_le :
  forall m k, 0 < m -> m < 2 ^ k -> Zdigits2 m <= k.
Proof.
  intros m k Hm Hk.
  pose proof (Zdigits2_bounds m Hm) as [Hlo _].
  destruct (Z.le_gt_cases (Zdigits2 m) k) as [|Hgt]; [assumption|].
  exfalso.
  assert (0 <= k).
  { destruct (Z.le_gt_cases 0 k); [assumption|]. rewrite Z.pow_neg_r in Hk by lia. lia. }
  assert (2 ^ k <= 2 ^ (Zdigits2 m - 1)) by (apply Z.pow_le_mono_r; lia).
  lia.
Qed.

Lemma Zdigits2_lt_pow :
  forall m k, 0 < m -> Zdigits2 m <= k -> m < 2 ^ k.
Proof.
  intros m k Hm Hk.
  pose proof (Zdigits2_bounds m Hm) as [_ Hhi].
  assert (0 < Zdigits2 m).
  { destruct m; try lia. cbn. lia. }
  assert (2 ^ Zdigits2 m <= 2 ^ k) by (apply Z.pow_le_mono_r; lia).
  lia.
Qed.

Lemma fexp64 : forall x, fexp 53 1024 x = Z.max (x - 53) (-1074).
Proof. reflexivity. Qed.

Lemma shr_1_m :
  forall m l, 0 < m -> shr_m (shr_1 (shr_record_of_loc m l)) = Z.div2 m.
Proof.
  intros m l Hm. destruct m as [|p|p]; try lia.
  destruct l as [|[| |]]; destruct p; reflexivity.
Qed.

Lemma shr_fexp_step :
  forall m e l, 0 < m -> m < 2 ^ 54 -> -1074 <= e ->
    exists mrs e1,
      shr_fexp 53 1024 m e l = (mrs, e1) /\
      e <= e1 <= e + 1 /\
      ((shr_m mrs = m /\ m < 2 ^ 53) \/ shr_m mrs = Z.div2 m).
Proof.
  intros m e l Hm Hlt He.
  unfold shr_fexp. rewrite fexp64.
  pose proof (Zdigits2_le m 54 Hm Hlt) as Hd.
  remember (Z.max (Zdigits2 m + e - 53) (-1074) - e) as n eqn:En.
  assert (Hn : n <= 1) by lia.
  destruct n as [|p|p].
  - eexists; eexists. split; [reflexivity|]. split; [lia|].
    left. split; [destruct l as [|[| |]]; reflexivity|].
    apply Zdigits2_lt_pow; lia.
  - assert (p = 1%positive) by lia. subst p.
    eexists; eexists. split; [reflexivity|]. split; [lia|].
    right. cbn [iter_pos fst]. apply shr_1_m. exact Hm.
  - eexists; eexists. split; [reflexivity|]. split; [lia|].
    left. split; [destruct l as [|[| |]]; reflexivity|].
    apply Zdigits2_lt_pow; lia.
Qed.

Lemma round_nearest_even_range :
  forall m l, m <= round_nearest_even m l <= m + 1.
Proof.
  intros m l. destruct l as [|[| |]]; cbn; try lia.
  destruct (Z.even m); lia.
Qed.

Lemma div2_range : forall m, 2 <= m -> 1 <= Z.div2 m /\ m - 1 <= 2 * Z.div2 m <= m.
Proof.
  intros m Hm. rewrite Z.div2_div.
  pose proof (Z.div_mod m 2 ltac:(lia)). pose proof (Z.mod_pos_bound m 2 ltac:(lia)). lia.
Qed.

Lemma binary_round_aux_finite :
  forall q e l, 4 <= q -> q < 2 ^ 54 -> -1074 <= e <= 968 ->
    exists m e', binary_round_aux 53 1024 false q e l = S754_finite false m e'.
Proof.
  intros q e l Hq Hlt He.
  unfold binary_round_aux.
  destruct (shr_fexp_step q e l ltac:(lia) Hlt ltac:(lia)) as [mrs [e1 [E1 [He1 Hm1]]]].
  rewrite E1.
  set (m2 := round_nearest_even (shr_m mrs) (loc_of_shr_record mrs)).
  pose proof (round_nearest_even_range (shr_m mrs) (loc_of_shr_record mrs)) as Hr.
  fold m2 in Hr.
  assert (Hm2 : 2 <= m2 <= 2 ^ 53).
  { destruct Hm1 as [[E Hq53] | E]; rewrite E in Hr.
    - lia.
    - pose proof (div2_range q ltac:(lia)).
      change (2 ^ 54) with (2 * 2 ^ 53) in Hlt. lia. }
  destruct (shr_fexp_step m2 e1 loc_Exact ltac:(lia)
              ltac:(change (2 ^ 54) with (2 * 2 ^ 53); lia) ltac:(lia))
    as [mrs2 [e2 [E2 [He2 Hm3]]]].
  rewrite E2.
  assert (Hm3' : 1 <= shr_m mrs2).
  { destruct Hm3 as [[E _] | E]; rewrite E; [lia|]. apply div2_range. lia. }
  destruct (shr_m mrs2) as [|p|p]; try lia.
  destruct (Z.leb_spec e2 (1024 - 53)); [|lia].
  eexists; eexists; reflexivity.
Qed.

Lemma one64 : Float.of_Z64 1 = S754_finite false 4503599627370496 (-52).
Proof. reflexivity. Qed.

Lemma lit_1em6_value : Float.lit_1em6 = S754_finite false 4722366482869645 (-72).
Proof. reflexivity. Qed.

Lemma bounded64 :
  forall m e, bounded 53 1024 m e = true ->
    Z.max (Zpos (digits2_pos m) + e - 53) (-1074) = e /\ e <= 971.
Proof.
  intros m e H. unfold bounded, canonical_mantissa in H.
  apply andb_prop in H. destruct H as [H1 H2].
  rewrite fexp64 in H1. apply Z.eqb_eq in H1. apply Z.leb_le in H2.
  split; [exact H1 | exact H2].
Qed.

Lemma above_1em6 :
  forall m e, SFltb Float.lit_1em6 (S754_finite false m e) = true -> -72 <= e.
Proof.
  intros m e H. rewrite lit_1em6_value in H. unfold SFltb, SFcompare in H.
  destruct (Z.compare_spec (-72) e); try lia; discriminate.
Qed.

Lemma div_eucl_div : forall a b, Z.div_eucl a b = (a / b, a mod b).
Proof. intros a b. unfold Z.div, Z.modulo. destruct (Z.div_eucl a b); reflexivity. Qed.

Lemma quotient_range :
  forall s my, 2 <= s -> 2 ^ 52 <= my < 2 ^ 53 ->
    2 ^ (s - 1) <= 2 ^ (52 + s) / my <= 2 ^ s.
Proof.
  intros s my Hs Hmy.
  assert (Hp : 0 < 2 ^ (s - 1)) by (apply Z.pow_pos_nonneg; lia).
  assert (E1 : 2 ^ (52 + s) = 2 ^ 53 * 2 ^ (s - 1)).
  { rewrite <- Z.pow_add_r by lia. f_equal. lia. }
  assert (E2 : 2 ^ (52 + s) = 2 ^ 52 * 2 ^ s).
  { rewrite <- Z.pow_add_r by lia. reflexivity. }
  assert (E3 : 2 ^ s = 2 * 2 ^ (s - 1)).
  { replace s with (1 + (s - 1)) at 1 by lia. rewrite Z.pow_add_r by lia. reflexivity. }
  split.
  - apply Z.div_le_lower_bound; [lia|]. rewrite E1. nia.
  - apply Z.div_le_upper_bound; [lia|]. rewrite E2. nia.
Qed.

Lemma div_one_finite :
  forall m e,
    bounded 53 1024 m e = true ->
    SFltb Float.lit_1em6 (S754_finite false m e) = true ->
    exists m' e', Float.div64 (Float.of_Z64 1) (S754_finite false m e) = S754_finite false m' e'.
Proof.
  intros m e Hb Hlt.
  pose proof (above_1em6 m e Hlt) as He.
  destruct (bounded64 m e Hb) as [Hc Hmax].
  assert (Hd : Zpos (digits2_pos m) = 53) by lia.
  pose proof (Zdigits2_bounds (Zpos m) ltac:(lia)) as Hm.
  cbn [Zdigits2] in Hm. rewrite Hd in Hm. change (53 - 1) with 52 in Hm.
  rewrite one64. unfold Float.div64, SFdiv, SFdiv_core_binary.
  change (Zdigits2 4503599627370496) with 53.
  cbn [Zdigits2]. rewrite Hd. rewrite fexp64.
  set (e' := Z.min (Z.max (53 + -52 - (53 + e) - 53) (-1074)) (-52 - e)).
  set (s := -52 - e - e').
  assert (Hs : 51 <= s <= 53) by (unfold s, e'; lia).
  assert (He' : -1074 <= e' <= 968) by (unfold e'; lia).
  destruct s as [|p|p] eqn:Es; try lia.
  rewrite Z.shiftl_mul_pow2 by lia.
  rewrite div_eucl_div.
  change 4503599627370496 with (2 ^ 52).
  rewrite <- Z.pow_add_r by lia.
  pose proof (quotient_range (Zpos p) (Zpos m) ltac:(lia) Hm) as Hq.
  assert (2 ^ 50 <= 2 ^ (Zpos p - 1)) by (apply Z.pow_le_mono_r; lia).
  assert (2 ^ Zpos p <= 2 ^ 53) by (apply Z.pow_le_mono_r; lia).
  apply binary_round_aux_finite; [ | | exact He'].
  - change (2 ^ 50) with 1125899906842624 in *. lia.
  - change (2 ^ 53) with 9007199254740992 in *. change (2 ^ 54) with 18014398509481984. lia.
Qed.

Lemma finite_nonneg_is_finite :
  forall d, Float.finite_nonneg d = true -> Float.is_finite d = true.
Proof. intros [s|s| |[|] m e]; cbn; congruence. Qed.

(** The clamped disparity is never below [1e-6]. *)
Lemma clamp_disparity_lower_bound :
  forall d, Float.is_nan d = false ->
    SFleb Float.lit_1em6 (clamp_disparity d) = true.
Proof.
  intros d Hn. unfold clamp_disparity, Float.np_maximum. rewrite Hn.
  destruct (SFltb Float.lit_1em6 d) eqn:E; [|reflexivity].
  unfold SFltb in E. unfold SFleb.
  destruct (SFcompare Float.lit_1em6 d) as [[| |]|]; try discriminate. reflexivity.
Qed.

Lemma clamp_disparity_cases :
  forall d, Float.is_finite d = true ->
    clamp_disparity d = Float.lit_1em6 \/
    (exists m e, d = S754_finite false m e /\ clamp_disparity d = d /\
                 SFltb Float.lit_1em6 d = true).
Proof.
  intros d Hf. unfold clamp_disparity, Float.np_maximum.
  destruct d as [s|s| |s m e]; try discriminate; cbn [Float.is_nan].
  - left. reflexivity.
  - destruct (SFltb Float.lit_1em6 (S754_finite s m e)) eqn:E; [|left; reflexivity].
    destruct s; [discriminate E|].
    right. exists m, e. repeat split.
Qed.

(** C5.  Every element of the disparity map is replaced by the larger of
    itself and [1e-6] before the division, so that for a disparity that
    is a finite binary64 value, non-negative in particular, the divisor
    is at least [1e-6] and the depth [1. / divisor] is a finite value
    above zero. *)
Theorem depth_of_disparity_finite_positive :
  forall (src_disp : ndarray spec_float) (ix : list nat),
    valid_binary 53 1024 (item src_disp ix) = true ->
    Float.is_finite (item src_disp ix) = true ->
    shape (depth_of_disparity src_disp) = shape src_disp /\
    item (depth_of_disparity src_disp) ix =
      Float.div64 (Float.of_Z64 1) (clamp_disparity (item src_disp ix)) /\
    SFleb Float.lit_1em6 (clamp_disparity (item src_disp ix)) = true /\
    Float.finite_pos (item (depth_of_disparity src_disp) ix) = true.
Proof.
  intros src_disp ix Hv Hf.
  split; [reflexivity|]. split; [reflexivity|].
  split.
  { apply clamp_disparity_lower_bound. destruct (item src_disp ix); try discriminate; reflexivity. }
  cbn [depth_of_disparity Tensor.map item].
  destruct (clamp_disparity_cases _ Hf) as [E | [m [e [Ed [E Hlt]]]]].
  - rewrite E. reflexivity.
  - rewrite E, Ed. rewrite Ed in Hv, Hlt. cbn [valid_binary] in Hv.
    destruct (div_one_finite m e Hv Hlt) as [m' [e' Hdiv]].
    rewrite Hdiv. reflexivity.
Qed.

Lemma depth_of_disparity_finite_positive_witness :
  Float.finite_pos (item (depth_of_disparity sample_disparity) [1%nat]) = true /\
  item (depth_of_disparity sample_disparity) [1%nat] = Float.of_Z64 2 /\
  item (depth_of_disparity sample_disparity) [0%nat] = Float.of_Z64 1000000 /\
  item (depth_of_disparity sample_disparity) [2%nat] = Float.of_Z64 1000000.
Proof.
  split.
  - apply (depth_of_disparity_finite_positive sample_disparity [1%nat]); reflexivity.
  - repeat split.
Defined.

(** ** Frame assembly *)

Lemma crop_bounds :
  forall n : nat,
    PySlice.bounds (Some crop) (Some (- crop)) n =
    (Nat.min 32 n, Nat.max (Nat.min 32 n) (n - 32)).
Proof.
  intros n. unfold PySlice.bounds, PySlice.adjust_index, crop.
  cbn [Z.ltb Z.compare Z.opp].
  f_equal; lia.
Qed.

Lemma crop_extent :
  forall n : nat, (Nat.max (Nat.min 32 n) (n - 32) - Nat.min 32 n = n - 64)%nat.
Proof. intros n. lia. Qed.

Lemma astype_uint8_range : forall x, 0 <= Float.astype_uint8 x < 256.
Proof. intros x. unfold Float.astype_uint8. apply Z.mod_pos_bound. lia. Qed.

(** The assembled frame of a rendered image of shape (1, 3, H, W), when
    neither H nor W is 1. *)
Lemma assemble_frame_value :
  forall (pred_img : ndarray spec_float) (H W : nat),
    shape pred_img = [1; 3; H; W]%nat -> H <> 1%nat -> W <> 1%nat ->
    assemble_frame pred_img =
    Ok (mk_ndarray [H - 64; W - 64; 3]%nat
          (fun ix =>
             match ix with
             | i :: j :: r =>
                 Float.astype_uint8
                   (Float.mul32 (Float.of_Z32 255)
                      (item pred_img
                         (unsqueeze_index [1; 3; H; W]%nat
                            (permute_index [1; 2; 0]%nat
                               ((Nat.min 32 H + i) :: (Nat.min 32 W + j) :: r)%nat))))
             | _ =>
                 Float.astype_uint8
                   (Float.mul32 (Float.of_Z32 255)
                      (item pred_img
                         (unsqueeze_index [1; 3; H; W]%nat
                            (permute_index [1; 2; 0]%nat ix))))
             end)).
Proof.
  intros pred_img H W Hs HH HW.
  unfold assemble_frame, squeeze, permute, ndim.
  rewrite Hs. unfold squeeze_shape. cbn [filter Nat.eqb negb shape].
  destruct (Nat.eqb_spec H 1) as [|_]; [contradiction|].
  destruct (Nat.eqb_spec W 1) as [|_]; [contradiction|].
  cbn [negb length Nat.eqb bind List.map nth].
  unfold getitem_slice2. cbn [shape Tensor.map fst snd].
  rewrite !crop_bounds, !crop_extent.
  reflexivity.
Qed.

Lemma permuted_index :
  forall (H W i j c : nat), H <> 1%nat -> W <> 1%nat ->
    unsqueeze_index [1; 3; H; W]%nat (permute_index [1; 2; 0]%nat [i; j; c]) =
    [0; c; i; j]%nat.
Proof.
  intros H W i j c HH HW. cbn.
  destruct (Nat.eqb_spec H 1) as [|_]; [contradiction|].
  destruct (Nat.eqb_spec W 1) as [|_]; [contradiction|].
  reflexivity.
Qed.

(** The claim C6 as it is stated fails on a small image: a 10x10 image
    gives a frame with no rows and no columns, not one of -54 by -54. *)
Lemma assemble_frame_small_image :
  exists frame,
    assemble_frame (full [1; 3; 10; 10]%nat Float.pzero) = Ok frame /\
    shape frame = [0; 0; 3]%nat /\
    List.map Z.of_nat (shape frame) <> [10 - 64; 10 - 64; 3].
Proof.
  eexists. split; [reflexivity|]. split; [reflexivity|]. cbn. discriminate.
Qed.

(** C6, amended.  For a rendered image of shape (1, 3, H, W) with H and W
    other than 1, the emitted frame has H - 64 rows and W - 64 columns,
    each clipped at 0, and 3 channels; the pixel at row [i], column [j]
    and channel [c] is the 8-bit conversion of 255 times the rendered
    value at channel [c], row [i + 32] and column [j + 32]. *)
Theorem assemble_frame_crops_border :
  forall (pred_img : ndarray spec_float) (H W : nat),
    shape pred_img = [1; 3; H; W]%nat -> H <> 1%nat -> W <> 1%nat ->
    exists frame,
      assemble_frame pred_img = Ok frame /\
      List.map Z.of_nat (shape frame) =
        [Z.max 0 (Z.of_nat H - 64); Z.max 0 (Z.of_nat W - 64); 3] /\
      ((64 <= H)%nat -> (64 <= W)%nat ->
       List.map Z.of_nat (shape frame) = [Z.of_nat H - 64; Z.of_nat W - 64; 3]) /\
      (forall i j c : nat,
          (i < H - 64)%nat -> (j < W - 64)%nat -> (c < 3)%nat ->
          item frame [i; j; c] =
          Float.astype_uint8
            (Float.mul32 (Float.of_Z32 255) (item pred_img [0; c; i + 32; j + 32]%nat)) /\
          0 <= item frame [i; j; c] < 256).
Proof.
  intros pred_img H W Hs HH HW.
  eexists. split; [apply (assemble_frame_value pred_img H W Hs HH HW)|].
  cbn [shape item List.map].
  split; [f_equal; [lia | f_equal; lia]|].
  split; [intros; f_equal; [lia | f_equal; lia]|].
  intros i j c Hi Hj Hc.
  rewrite (permuted_index H W _ _ c HH HW).
  replace (Nat.min 32 H + i)%nat with (i + 32)%nat by lia.
  replace (Nat.min 32 W + j)%nat with (j + 32)%nat by lia.
  split; [reflexivity | apply astype_uint8_range].
Qed.

Lemma assemble_frame_crops_border_witness :
  exists frame,
    assemble_frame sample_pred_img = Ok frame /\
    List.map Z.of_nat (shape frame) = [6; 36; 3] /\
    item frame [0; 0; 0]%nat = 191.
Proof.
  destruct (assemble_frame_crops_border sample_pred_img 70 100 eq_refl
              ltac:(discriminate) ltac:(discriminate))
    as [frame [E [Hshape [_ Hpix]]]].
  exists frame. split; [exact E|]. split; [exact Hshape|].
  destruct (Hpix 0%nat 0%nat 0%nat ltac:(cbn; lia) ltac:(cbn; lia) ltac:(lia)) as [Hv _].
  rewrite Hv. reflexivity.
Defined.

(** C10, where the code departs from it.  A rendered image one pixel
    high loses that dimension in [squeeze()], so that [permute(1, 2, 0)]
    raises: no frame is assembled, empty or not. *)
Theorem assemble_frame_height_one_raises :
  shape (squeeze (full [1; 3; 1; 100]%nat Float.pzero)) = [3; 100]%nat /\
  assemble_frame (full [1; 3; 1; 100]%nat Float.pzero) = Raise RuntimeError /\
  assemble_frame (full [1; 3; 100; 1]%nat Float.pzero) = Raise RuntimeError.
Proof. repeat split. Qed.

(** X4.  For a rendered image of shape (1, 3, H, W) with H and W other
    than 1 the crop never raises, and the frame is empty exactly when
    the image is at most 64 pixels high or wide. *)
Lemma assemble_frame_empty_iff :
  forall (pred_img : ndarray spec_float) (H W : nat),
    shape pred_img = [1; 3; H; W]%nat -> H <> 1%nat -> W <> 1%nat ->
    exists frame,
      assemble_frame pred_img = Ok frame /\
      (numel frame = 0%nat <-> (H <= 64)%nat \/ (W <= 64)%nat).
Proof.
  intros pred_img H W Hs HH HW.
  eexists. split; [apply (assemble_frame_value pred_img H W Hs HH HW)|].
  unfold numel. cbn [shape fold_right]. split; intros E.
  - destruct (Nat.le_gt_cases H 64) as [|Hh]; [left; assumption|].
    destruct (Nat.le_gt_cases W 64) as [|Hw]; [right; assumption|].
    exfalso.
    assert ((H - 64) * ((W - 64) * (3 * 1)) <> 0)%nat by (apply Nat.neq_mul_0; split; lia).
    contradiction.
  - destruct E as [E|E].
    + replace (H - 64)%nat with 0%nat by lia. reflexivity.
    + replace (W - 64)%nat with 0%nat by lia. lia.
Qed.

(** ** The order of the frames *)

Lemma appended_indices_cons :
  forall i f log, appended_indices (Appended i f :: log) = i :: appended_indices log.
Proof. reflexivity. Qed.

Lemma appended_frames_cons :
  forall i f log, appended_frames (Appended i f :: log) = f :: appended_frames log.
Proof. reflexivity. Qed.

Lemma range0_nth_error :
  forall n k i, nth_error (range0 n) k = Some i -> i = Z.of_nat k.
Proof.
  intros n k i H. unfold range0 in H.
  rewrite nth_error_map, nth_error_seq in H.
  destruct (Nat.ltb k (Z.to_nat n)); [|discriminate].
  cbn in H. injection H as <-. reflexivity.
Qed.

Lemma range0_length : forall n, length (range0 n) = Z.to_nat n.
Proof. intros n. unfold range0. rewrite length_map, length_seq. reflexivity. Qed.

Lemma map_fst_combine :
  forall (A B : Type) (l : list A) (l' : list B),
    length l = length l' -> List.map fst (combine l l') = l.
Proof.
  intros A B l. induction l as [|a l IH]; intros [|b l'] H; cbn in *;
    try reflexivity; try discriminate.
  f_equal. apply IH. injection H as H. exact H.
Qed.

Lemma enumerate_range0_indices :
  forall n, List.map fst (enumerate (range0 n)) = range0 n.
Proof.
  intros n. unfold enumerate.
  rewrite map_fst_combine.
  - rewrite range0_length. reflexivity.
  - rewrite length_map, length_seq. reflexivity.
Qed.

Lemma enumerate_range0_steps :
  forall n p, In p (enumerate (range0 n)) -> snd p = fst p.
Proof.
  intros n p H. unfold enumerate in H. rewrite range0_length in H.
  fold (range0 n) in H.
  assert (G : forall l (q : Z * Z), In q (combine l l) -> snd q = fst q).
  { intros l. induction l as [|a l IH]; intros q Hq; cbn in Hq.
    - contradiction.
    - destruct Hq as [<-|Hq]; [reflexivity | apply IH; exact Hq]. }
  apply (G _ _ H).
Qed.

Section RenderFrames.

Variable body : Z -> Z -> result (ndarray Z).

(** The loop appends one frame per step for as long as the steps succeed:
    the log holds [Appended] events only, their indices are a prefix of
    the steps' indices, each frame is the one the body returned for its
    step, and a run that completes has gone through every step and
    returns the frames in the order it appended them. *)
Lemma render_frames_log :
  forall (steps : list (Z * Z)) (frames : list (ndarray Z)),
    Forall is_appended (fst (render_frames body steps frames)) /\
    (exists k, appended_indices (fst (render_frames body steps frames)) =
               firstn k (List.map fst steps)) /\
    (forall fs, snd (render_frames body steps frames) = Ok fs ->
                appended_indices (fst (render_frames body steps frames)) = List.map fst steps /\
                fs = frames ++ appended_frames (fst (render_frames body steps frames))) /\
    Forall2 (fun p f => body (fst p) (snd p) = Ok f)
            (firstn (length (appended_frames (fst (render_frames body steps frames)))) steps)
            (appended_frames (fst (render_frames body steps frames))).
Proof.
  intros steps. induction steps as [|[i t] rest IH]; intros frames; cbn [render_frames].
  - cbn. split; [constructor|].
    split; [exists 0%nat; reflexivity|].
    split; [|constructor].
    intros fs H. injection H as <-. rewrite app_nil_r. split; reflexivity.
  - destruct (body i t) as [frame|e] eqn:Eb.
    + specialize (IH (frames ++ [frame])).
      destruct (render_frames body rest (frames ++ [frame])) as [log r].
      cbn [fst snd] in *.
      destruct IH as [Hall [[k Hk] [Hok Hbody]]].
      rewrite appended_indices_cons, appended_frames_cons.
      cbn [List.map fst length firstn].
      split; [constructor; [exact I | exact Hall]|].
      split; [exists (S k); rewrite Hk; reflexivity|].
      split.
      * intros fs H. destruct (Hok fs H) as [E1 E2]. split.
        -- rewrite E1. reflexivity.
        -- rewrite E2, <- app_assoc. reflexivity.
      * constructor; [exact Eb | exact Hbody].
    + cbn. split; [constructor|].
      split; [exists 0%nat; reflexivity|].
      split; [discriminate | constructor].
Qed.

End RenderFrames.

Lemma appended_not_written :
  forall log file frames fps quality,
    Forall is_appended log -> ~ In (Written file frames fps quality) log.
Proof.
  intros log file frames fps quality Hall Hin.
  rewrite Forall_forall in Hall. exact (Hall _ Hin).
Qed.

Lemma appended_indices_app :
  forall l1 l2, appended_indices (l1 ++ l2) = appended_indices l1 ++ appended_indices l2.
Proof. intros. unfold appended_indices. apply flat_map_app. Qed.

Lemma appended_frames_app :
  forall l1 l2, appended_frames (l1 ++ l2) = appended_frames l1 ++ appended_frames l2.
Proof. intros. unfold appended_frames. apply flat_map_app. Qed.

Lemma prefix_of_range0 :
  forall n m k i, nth_error (firstn m (range0 n)) k = Some i -> i = Z.of_nat k.
Proof.
  intros n m k i H. rewrite nth_error_firstn in H.
  destruct (Nat.ltb k m); [|discriminate].
  exact (range0_nth_error n k i H).
Qed.

Lemma render_frames_ok :
  forall (body : Z -> Z -> result (ndarray Z)) (steps : list (Z * Z))
         (frames fs : list (ndarray Z)),
    snd (render_frames body steps frames) = Ok fs ->
    exists new,
      fs = frames ++ new /\
      appended_frames (fst (render_frames body steps frames)) = new /\
      Forall2 (fun p f => body (fst p) (snd p) = Ok f) steps new.
Proof.
  intros body steps. induction steps as [|[i t] rest IH]; intros frames fs H;
    cbn [render_frames] in *.
  - cbn in H. injection H as <-. exists []. rewrite app_nil_r.
    repeat split. constructor.
  - destruct (body i t) as [frame|e] eqn:Eb; [|discriminate H].
    specialize (IH (frames ++ [frame]) fs).
    destruct (render_frames body rest (frames ++ [frame])) as [log r].
    cbn [fst snd] in *.
    destruct (IH H) as [new [E1 [E2 E3]]].
    exists (frame :: new). rewrite appended_frames_cons.
    split; [rewrite E1, <- app_assoc; reflexivity|].
    split; [rewrite E2; reflexivity|].
    constructor; [exact Eb | exact E3].
Qed.

Lemma render_frames_raises :
  forall (body : Z -> Z -> result (ndarray Z)) (steps : list (Z * Z))
         (frames : list (ndarray Z)) (p : Z * Z),
    In p steps -> raised (body (fst p) (snd p)) = true ->
    raised (snd (render_frames body steps frames)) = true.
Proof.
  intros body steps. induction steps as [|[i t] rest IH]; intros frames p Hin Hp.
  - contradiction.
  - cbn [render_frames].
    destruct (body i t) as [frame|e] eqn:Eb; [|reflexivity].
    destruct Hin as [<-|Hin].
    + cbn [fst snd] in Hp. rewrite Eb in Hp. discriminate.
    + specialize (IH (frames ++ [frame]) p Hin Hp).
      destruct (render_frames body rest (frames ++ [frame])) as [log r].
      exact IH.
Qed.

Lemma combine_diagonal :
  forall (A B : Type) (P : A -> A -> B -> Prop) (l : list A) (fs : list B),
    Forall2 (fun p f => P (fst p) (snd p) f) (combine l l) fs ->
    Forall2 (fun k f => P k k f) l fs.
Proof.
  intros A B P l. induction l as [|a l IH]; intros fs H; cbn in H.
  - inversion H. constructor.
  - inversion H as [|p f ps fs' Hp Hrest]; subst. constructor; [exact Hp | apply IH; exact Hrest].
Qed.

Lemma enumerate_range0 :
  forall n, enumerate (range0 n) = combine (range0 n) (range0 n).
Proof.
  intros n. unfold enumerate. rewrite range0_length. reflexivity.
Qed.

Lemma range0_in : forall n k, 0 <= k < n -> In k (range0 n).
Proof.
  intros n k Hk. unfold range0.
  replace k with (Z.of_nat (Z.to_nat k)) by lia.
  apply in_map. apply in_seq. lia.
Qed.

Lemma combine_diagonal_in :
  forall (A : Type) (l : list A) (a : A), In a l -> In (a, a) (combine l l).
Proof.
  intros A l a. induction l as [|b l IH]; intros H; cbn in *.
  - contradiction.
  - destruct H as [->|H]; [left; reflexivity | right; apply IH; exact H].
Qed.


Lemma trajectory_indices :
  forall n s e,
    (s <- Float.torch_long 0 ;; e <- Float.torch_long (n - 1) ;; Ok (s, e)) = Ok (s, e) ->
    s = 0 /\ e = n - 1.
Proof.
  intros n s e H. unfold Float.torch_long in H.
  change (if (- 2 ^ 63 <=? 0) && (0 <? 2 ^ 63) then Ok 0 else Raise RuntimeError)
    with (@Ok Z 0) in H.
  cbn [bind] in H.
  destruct ((- 2 ^ 63 <=? n - 1) && (n - 1 <? 2 ^ 63)); cbn [bind] in H; [|discriminate].
  injection H as <- <-. split; reflexivity.
Qed.

Lemma render_frames_diagonal :
  forall (body : Z -> Z -> result (ndarray Z)) (l : list Z) (frames : list (ndarray Z)),
    Forall2 (fun i f => body i i = Ok f)
            (appended_indices (fst (render_frames body (combine l l) frames)))
            (appended_frames (fst (render_frames body (combine l l) frames))).
Proof.
  intros body l. induction l as [|a l IH]; intros frames; cbn [combine render_frames].
  - constructor.
  - destruct (body a a) as [frame|e] eqn:Eb; [|constructor].
    specialize (IH (frames ++ [frame])).
    destruct (render_frames body (combine l l) (frames ++ [frame])) as [log r].
    cbn [fst] in *.
    rewrite appended_indices_cons, appended_frames_cons.
    constructor; [exact Eb | exact IH].
Qed.

Section RenderOrder.

Variable Scene : Type.
Variable euler : ndarray spec_float -> Z -> result (ndarray spec_float).
Variable compute_scene_flow_for_motion :
  Scene -> ndarray spec_float -> ndarray spec_float -> bool -> result Warped.
Variable render_pcd :
  ndarray spec_float -> ndarray spec_float -> ndarray spec_float -> ndarray spec_float ->
  ndarray Z -> ndarray spec_float -> spec_float -> Z -> string -> result (ndarray spec_float).
Variable define_camera_path : Z -> spec_float -> result (ndarray spec_float).
Variable true_divide : ndarray spec_float -> spec_float -> ndarray spec_float.
Variable format_float : spec_float -> string.
Variable mimwrite : string -> list (ndarray Z) -> Z -> Z -> result unit.

Local Abbreviation run :=
  (render Scene euler compute_scene_flow_for_motion render_pcd define_camera_path
          true_divide format_float mimwrite) (only parsing).

(** The frame of index [k] in a run of [render] with the camera path
    [T]: the loop body on the scaled flow, the path in binary32, the 5x5
    kernel of ones and the trajectory from 0 to [n_frames - 1], with the
    time step equal to the index. *)
Local Abbreviation rendered args scene flow T k :=
  (render_frame Scene euler compute_scene_flow_for_motion render_pcd scene
     (true_divide flow (flow_scale args)) (Tensor.map Float.to32 T)
     (full [5; 5]%nat (Float.of_Z32 1)) "side"%string 0 (n_frames args - 1) k k)
  (only parsing).

(** C7.  In every run of [render] the frame appended in position [k] is
    the frame of time index [k], and it is the frame the loop body
    rendered for that index: frames are rendered and appended for the
    indices 0, 1, 2, ... in that order.  When the video encoder is called,
    it is the last thing the run does, every index below [n_frames] has
    been rendered, and the sequence it is handed is the appended frames in
    the order they were appended, so that its frame in position [k] is
    the frame rendered for the index [k]. *)
Theorem render_frames_in_index_order :
  forall (args : Args) (video_out_folder : string) (scene : Scene)
         (flow : ndarray spec_float),
    (forall k i,
        nth_error (appended_indices (fst (run args video_out_folder scene flow))) k = Some i ->
        i = Z.of_nat k) /\
    (forall file frames fps quality,
        In (Written file frames fps quality) (fst (run args video_out_folder scene flow)) ->
        appended_indices (fst (run args video_out_folder scene flow)) = range0 (n_frames args) /\
        frames = appended_frames (fst (run args video_out_folder scene flow)) /\
        length frames = Z.to_nat (n_frames args) /\
        (exists log, fst (run args video_out_folder scene flow) =
                     log ++ [Written file frames fps quality] /\
                     Forall is_appended log) /\
        exists T,
          define_camera_path (n_frames args) (SFopp (x_motion args)) = Ok T /\
          Forall2 (fun k frame => rendered args scene flow T k = Ok frame)
                  (range0 (n_frames args)) frames) /\
    (forall T,
        define_camera_path (n_frames args) (SFopp (x_motion args)) = Ok T ->
        Forall2 (fun i frame => rendered args scene flow T i = Ok frame)
                (appended_indices (fst (run args video_out_folder scene flow)))
                (appended_frames (fst (run args video_out_folder scene flow)))).
Proof.
  intros args out scene flow. unfold render.
  destruct (define_camera_path (n_frames args) (SFopp (x_motion args))) as [T|e].
  2:{ split; [intros [|k] i H; discriminate|].
      split; [intros ? ? ? ? []|]. intros T H. discriminate. }
  destruct (s <- Float.torch_long 0;; e <- Float.torch_long (n_frames args - 1);; Ok (s, e))
    as [[start_index end_index]|e] eqn:Et.
  2:{ split; [intros [|k] i H; discriminate|].
      split; [intros ? ? ? ? []|]. intros T' _. constructor. }
  destruct (trajectory_indices _ _ _ Et) as [-> ->].
  match goal with
  | |- context [render_frames ?b ?s ?f] =>
      pose proof (render_frames_diagonal b (range0 (n_frames args)) f) as D;
      rewrite <- enumerate_range0 in D;
      pose proof (render_frames_log b s f) as L;
      destruct (render_frames b s f) as [log r]
  end.
  cbn [fst snd] in L, D. destruct L as [Hall [[m Hm] [Hok _]]].
  rewrite enumerate_range0_indices in Hm.
  destruct r as [frames|e]; cbn [fst].
  - destruct (Hok frames eq_refl) as [Hix Hfs].
    rewrite enumerate_range0_indices in Hix. cbn [app] in Hfs.
    rewrite appended_indices_app, appended_frames_app. cbn [appended_indices appended_frames flat_map].
    rewrite !app_nil_r.
    split; [|split].
    + intros k i H. rewrite Hix in H. exact (range0_nth_error _ _ _ H).
    + intros file fr fps quality Hin.
      apply in_app_or in Hin. destruct Hin as [Hin|Hin].
      { exfalso. exact (appended_not_written _ _ _ _ _ Hall Hin). }
      destruct Hin as [E|[]]. injection E as <- <- <- <-.
      split; [exact Hix|]. split; [exact Hfs|].
      split.
      * rewrite Hfs. unfold appended_frames, appended_indices in *.
        assert (G : forall l, Forall is_appended l ->
                  length (flat_map (fun e => match e with Appended _ f => [f] | Written _ _ _ _ => [] end) l) =
                  length (flat_map (fun e => match e with Appended i _ => [i] | Written _ _ _ _ => [] end) l)).
        { intros l Hl. induction Hl as [|[i f|] l Hx Hl IH]; cbn; [reflexivity | | contradiction].
          f_equal. exact IH. }
        rewrite (G log Hall), Hix. apply range0_length.
      * split; [exists log; split; [reflexivity | exact Hall]|].
        exists T. split; [reflexivity|].
        rewrite Hix in D. rewrite <- Hfs in D. exact D.
    + intros T' HT'. injection HT' as <-. exact D.
  - split; [|split].
    + intros k i H. rewrite Hm in H. exact (prefix_of_range0 _ _ _ _ H).
    + intros file fr fps quality Hin.
      exfalso. exact (appended_not_written _ _ _ _ _ Hall Hin).
    + intros T' HT'. injection HT' as <-. exact D.
Qed.

End RenderOrder.

Lemma render_frames_in_index_order_witness :
  exists file frames,
    In (Written file frames 25 8) (fst sample_run) /\
    appended_indices (fst sample_run) = [0; 1; 2] /\
    length frames = 3%nat /\
    snd sample_run = Ok tt /\
    exists T,
      sample_camera_path 3 (SFopp (x_motion sample_args)) = Ok T /\
      Forall2
        (fun k frame =>
           render_frame unit euler_integration sample_warp sample_render_pcd tt
             (sample_divide sample_flow (flow_scale sample_args)) (Tensor.map Float.to32 T)
             (full [5; 5]%nat (Float.of_Z32 1)) "side"%string 0 2 k k = Ok frame)
        [0; 1; 2] frames.
Proof.
  assert (E : exists file frames, In (Written file frames 25 8) (fst sample_run)).
  { vm_compute. eexists. eexists. right. right. right. left. reflexivity. }
  destruct E as [file [frames Hin]].
  destruct (proj1 (proj2 (render_frames_in_index_order unit euler_integration sample_warp
                     sample_render_pcd sample_camera_path sample_divide sample_format
                     sample_mimwrite sample_args "in/output"%string tt sample_flow))
                  file frames 25 8 Hin) as [Hix [_ [Hlen [_ [T [HT Hall]]]]]].
  exists file, frames.
  split; [exact Hin|]. split; [exact Hix|]. split; [exact Hlen|].
  split; [reflexivity|].
  exists T. split; [exact HT | exact Hall].
Defined.

(** * Further properties *)

(** ** Side tags, case by case *)

Lemma side_ids_backward_nonempty_witness :
  exists all_masks all_side_ids,
    side_ids [two_masks] [three_masks] [three_points] = Ok (all_masks, all_side_ids) /\
    tolist all_side_ids = [0; 0; 1; 1; 1].
Proof.
  apply (side_ids_backward_nonempty _ _ [two_masks] [three_masks] [three_points] [3%nat]).
  - discriminate.
  - repeat constructor; eexists; reflexivity.
  - reflexivity.
  - reflexivity.
  - cbn. lia.
  - discriminate.
Defined.

(** X2.  When the backward pass returns no point at all (and there is
    more than one point), [-num_pts_2] is 0, the slice is the whole
    vector, and every point, forward points included, is tagged 1. *)
Theorem side_ids_backward_empty :
  forall (M P : Type) (masks_f masks_b : list (ndarray M)) (pts_b : list (ndarray P))
         (ns : list nat),
    masks_f ++ masks_b <> [] ->
    Forall (fun t => exists n, shape t = [n; 1%nat]) (masks_f ++ masks_b) ->
    lens pts_b = Ok ns ->
    list_sum ns = 0%nat ->
    list_sum (List.map rows (masks_f ++ masks_b)) <> 1%nat ->
    exists all_masks all_side_ids,
      side_ids masks_f masks_b pts_b = Ok (all_masks, all_side_ids) /\
      tolist all_side_ids = repeat 1 (list_sum (List.map rows (masks_f ++ masks_b))).
Proof.
  intros M P masks_f masks_b pts_b ns Hne Hall Hlens Hsum Hn1.
  destruct (cat_columns M _ Hne Hall) as [c [Hcat Hshape]].
  unfold side_ids. rewrite Hcat. cbn [bind]. rewrite Hlens. cbn [bind].
  set (n := list_sum (List.map rows (masks_f ++ masks_b))) in *.
  assert (Hsq : squeeze_shape (shape c) = [n]).
  { rewrite Hshape. unfold squeeze_shape. cbn [filter].
    destruct (Nat.eqb_spec n 1); [contradiction|]. reflexivity. }
  unfold setitem_slice, full_like, full. cbn [shape squeeze].
  rewrite Hsq, Hsum. cbn [fst snd].
  rewrite bounds_minus_zero.
  eexists. eexists. split; [reflexivity|].
  unfold tolist. cbn [shape item].
  rewrite tags_of_threshold by lia.
  cbn [repeat app]. f_equal. lia.
Qed.

Lemma side_ids_backward_empty_witness :
  exists all_masks all_side_ids,
    side_ids [two_masks; three_masks] [no_masks] [no_points] = Ok (all_masks, all_side_ids) /\
    tolist all_side_ids = [1; 1; 1; 1; 1].
Proof.
  apply (side_ids_backward_empty _ _ [two_masks; three_masks] [no_masks] [no_points] [0%nat]).
  - discriminate.
  - repeat constructor; eexists; reflexivity.
  - reflexivity.
  - reflexivity.
  - discriminate.
Defined.

(** X3.  When the two passes return a single point between them,
    [all_masks.squeeze()] has no dimension left, and the slice assignment
    on the 0-d tensor of tags raises [IndexError]. *)
Theorem side_ids_single_point_raises :
  forall (M P : Type) (masks_f masks_b : list (ndarray M)) (pts_b : list (ndarray P))
         (ns : list nat),
    masks_f ++ masks_b <> [] ->
    Forall (fun t => exists n, shape t = [n; 1%nat]) (masks_f ++ masks_b) ->
    lens pts_b = Ok ns ->
    list_sum (List.map rows (masks_f ++ masks_b)) = 1%nat ->
    side_ids masks_f masks_b pts_b = Raise IndexError.
Proof.
  intros M P masks_f masks_b pts_b ns Hne Hall Hlens Hn1.
  destruct (cat_columns M _ Hne Hall) as [c [Hcat Hshape]].
  unfold side_ids. rewrite Hcat. cbn [bind]. rewrite Hlens. cbn [bind].
  unfold setitem_slice, full_like, full. cbn [shape squeeze].
  rewrite Hshape, Hn1. reflexivity.
Qed.

Lemma side_ids_single_point_raises_witness :
  side_ids [one_mask] [no_masks] [no_points] = Raise IndexError /\
  side_ids [no_masks] [one_mask] [one_mask] = Raise IndexError.
Proof.
  split.
  - apply (side_ids_single_point_raises _ _ [one_mask] [no_masks] [no_points] [0%nat]).
    + discriminate.
    + repeat constructor; eexists; reflexivity.
    + reflexivity.
    + reflexivity.
  - reflexivity.
Defined.

(** ** Frame assembly, case by case *)

Lemma assemble_frame_empty_iff_witness :
  exists frame,
    assemble_frame sample_pred_img = Ok frame /\
    (numel frame = 0%nat <-> (70 <= 64)%nat \/ (100 <= 64)%nat).
Proof.
  apply (assemble_frame_empty_iff sample_pred_img 70 100).
  - reflexivity.
  - discriminate.
  - discriminate.
Defined.

Lemma assemble_frame_rank :
  forall (pred_img : ndarray spec_float) (frame : ndarray Z),
    assemble_frame pred_img = Ok frame -> length (shape frame) = 3%nat.
Proof.
  intros pred_img frame H. unfold assemble_frame, permute, ndim in H.
  cbn [shape squeeze length] in H.
  destruct (squeeze_shape (shape pred_img)) as [|c [|h [|w [|x rest]]]] eqn:E;
    try discriminate.
  cbn [length Nat.eqb bind] in H.
  unfold getitem_slice2 in H. cbn [shape Tensor.map List.map nth fst snd] in H.
  destruct (PySlice.bounds (Some crop) (Some (- crop)) h) as [lo0 hi0].
  destruct (PySlice.bounds (Some crop) (Some (- crop)) w) as [lo1 hi1].
  injection H as <-. reflexivity.
Qed.

(** X5.  Whatever the shape of the rendered image, the assembly of a
    frame succeeds exactly when three of its dimensions have an extent
    other than 1; otherwise [permute(1, 2, 0)] raises [RuntimeError].
    The scaling, the conversion and the crop never raise. *)
Theorem assemble_frame_raises_iff :
  forall pred_img : ndarray spec_float,
    (length (squeeze_shape (shape pred_img)) = 3%nat ->
     exists frame, assemble_frame pred_img = Ok frame /\ length (shape frame) = 3%nat) /\
    (length (squeeze_shape (shape pred_img)) <> 3%nat ->
     assemble_frame pred_img = Raise RuntimeError).
Proof.
  intros pred_img. unfold assemble_frame, permute, ndim. cbn [shape squeeze length].
  split; intros H.
  - rewrite H. cbn [Nat.eqb bind].
    destruct (squeeze_shape (shape pred_img)) as [|c [|h [|w [|x rest]]]] eqn:E;
      try discriminate.
    unfold getitem_slice2. cbn [shape Tensor.map List.map nth fst snd].
    destruct (PySlice.bounds (Some crop) (Some (- crop)) h) as [lo0 hi0].
    destruct (PySlice.bounds (Some crop) (Some (- crop)) w) as [lo1 hi1].
    eexists. split; reflexivity.
  - destruct (Nat.eqb_spec 3 (length (squeeze_shape (shape pred_img)))) as [E|_].
    + exfalso. apply H. symmetry. exact E.
    + reflexivity.
Qed.

Lemma assemble_frame_raises_iff_witness :
  assemble_frame (full [3; 70; 100]%nat Float.pzero) <> Raise RuntimeError /\
  assemble_frame (full [1; 1; 70; 100]%nat Float.pzero) = Raise RuntimeError /\
  assemble_frame (full [2; 3; 70; 100]%nat Float.pzero) = Raise RuntimeError.
Proof.
  split; [|split].
  - destruct (proj1 (assemble_frame_raises_iff (full [3; 70; 100]%nat Float.pzero)) eq_refl)
      as [frame [E _]].
    rewrite E. discriminate.
  - apply (proj2 (assemble_frame_raises_iff (full [1; 1; 70; 100]%nat Float.pzero))).
    discriminate.
  - apply (proj2 (assemble_frame_raises_iff (full [2; 3; 70; 100]%nat Float.pzero))).
    discriminate.
Defined.

(** ** The input data, case by case *)

Ltac step_binds H :=
  repeat match type of H with
         | bind ?r _ = Ok _ =>
             let E := fresh "E" in
             lazymatch type of r with
             | result (prod _ _) => destruct r as [[? ?]|?] eqn:E
             | _ => destruct r as [?|?] eqn:E
             end;
             cbn [bind] in H; [|discriminate H]
         end.

Section InputDataCases.

Variable World : Type.
Variable PILImage : Type.
Variable Image_open : World -> string -> result PILImage.
Variable imread : World -> string -> result (ndarray Z).
Variable run_dpt : World -> string -> string -> string -> string -> bool -> result World.
Variable motion_input_transform : DataConfig -> PILImage -> result (ndarray spec_float).
Variable to_tensor : ndarray spec_float -> result (ndarray spec_float).
Variable resize_img : ndarray spec_float -> spec_float -> result (ndarray spec_float).
Variable remove_noise_in_dpt_disparity : ndarray spec_float -> result (ndarray spec_float).

Local Abbreviation input_data :=
  (get_input_data World PILImage Image_open imread run_dpt motion_input_transform
                  to_tensor resize_img remove_noise_in_dpt_disparity) (only parsing).




End InputDataCases.




(** ** The depth map at the edges *)

(** X9.  A disparity that is not above [1e-6] (zero of either sign, any
    negative value, minus infinity) gives the depth 1000000 exactly: the
    depth map saturates there.  The clamp does not repair what is not
    finite: a NaN disparity gives a NaN depth, and an infinite disparity
    gives the depth 0. *)
Theorem depth_of_disparity_saturates :
  forall (src_disp : ndarray spec_float) (ix : list nat),
    (Float.is_nan (item src_disp ix) = false ->
     SFltb Float.lit_1em6 (item src_disp ix) = false ->
     item (depth_of_disparity src_disp) ix = Float.of_Z64 1000000) /\
    (forall s, item src_disp ix = S754_zero s ->
               item (depth_of_disparity src_disp) ix = Float.of_Z64 1000000) /\
    (forall m e, item src_disp ix = S754_finite true m e ->
                 item (depth_of_disparity src_disp) ix = Float.of_Z64 1000000) /\
    (item src_disp ix = S754_infinity true ->
     item (depth_of_disparity src_disp) ix = Float.of_Z64 1000000) /\
    (item src_disp ix = S754_nan ->
     item (depth_of_disparity src_disp) ix = S754_nan) /\
    (item src_disp ix = S754_infinity false ->
     item (depth_of_disparity src_disp) ix = S754_zero false).
Proof.
  intros src_disp ix. cbn [depth_of_disparity Tensor.map item].
  unfold clamp_disparity, Float.np_maximum.
  split.
  { intros Hn Hlt. rewrite Hn, Hlt. reflexivity. }
  split; [intros s ->; reflexivity|].
  split; [intros m e ->; reflexivity|].
  split; [intros ->; reflexivity|].
  split; intros ->; reflexivity.
Qed.

Lemma depth_of_disparity_saturates_witness :
  item (depth_of_disparity sample_disparity) [0%nat] = Float.of_Z64 1000000 /\
  item (depth_of_disparity sample_disparity) [2%nat] = Float.of_Z64 1000000.
Proof.
  split.
  - apply (proj1 (proj2 (depth_of_disparity_saturates sample_disparity [0%nat])) false).
    reflexivity.
  - apply (proj1 (depth_of_disparity_saturates sample_disparity [2%nat])); reflexivity.
Defined.

(** ** The run as a whole *)

Section RenderRun.

Variable Scene : Type.
Variable euler : ndarray spec_float -> Z -> result (ndarray spec_float).
Variable compute_scene_flow_for_motion :
  Scene -> ndarray spec_float -> ndarray spec_float -> bool -> result Warped.
Variable render_pcd :
  ndarray spec_float -> ndarray spec_float -> ndarray spec_float -> ndarray spec_float ->
  ndarray Z -> ndarray spec_float -> spec_float -> Z -> string -> result (ndarray spec_float).
Variable define_camera_path : Z -> spec_float -> result (ndarray spec_float).
Variable true_divide : ndarray spec_float -> spec_float -> ndarray spec_float.
Variable format_float : spec_float -> string.
Variable mimwrite : string -> list (ndarray Z) -> Z -> Z -> result unit.

Local Abbreviation run :=
  (render Scene euler compute_scene_flow_for_motion render_pcd define_camera_path
          true_divide format_float mimwrite) (only parsing).

(** The frame of index [k] in a run of [render] with the camera path
    [T]: the flow is divided by the flow scale, the path is converted to
    binary32, the kernel is 5x5 ones, the trajectory goes from 0 to
    [n_frames - 1], and the time step is the index. *)
Local Abbreviation frame_of args scene flow T k :=
  (render_frame Scene euler compute_scene_flow_for_motion render_pcd scene
     (true_divide flow (flow_scale args)) (Tensor.map Float.to32 T)
     (full [5; 5]%nat (Float.of_Z32 1)) "side"%string 0 (n_frames args - 1) k k)
  (only parsing).

Local Abbreviation video_file args out :=
  (path_join out ("side" ++ "_flow_scale=" ++ format_float (flow_scale args) ++ ".mp4")%string)
  (only parsing).


(** X11.  When the frame of some index below [n_frames] raises, the run
    raises and the encoder is never called: no video is written from a
    part of the frames. *)
Theorem render_failure_writes_nothing :
  forall (args : Args) (out : string) (scene : Scene) (flow : ndarray spec_float) (k : Z),
    0 <= k < n_frames args ->
    (forall T, define_camera_path (n_frames args) (SFopp (x_motion args)) = Ok T ->
               raised (frame_of args scene flow T k) = true) ->
    raised (snd (run args out scene flow)) = true /\
    (forall file frames fps quality,
        ~ In (Written file frames fps quality) (fst (run args out scene flow))).
Proof.
  intros args out scene flow k Hk Hfail. unfold render.
  destruct (define_camera_path (n_frames args) (SFopp (x_motion args))) as [T|e];
    [|split; [reflexivity | intros ? ? ? ? []]].
  specialize (Hfail T eq_refl).
  destruct (s <- Float.torch_long 0;; e <- Float.torch_long (n_frames args - 1);; Ok (s, e))
    as [[start_index end_index]|e] eqn:Et;
    [|split; [reflexivity | intros ? ? ? ? []]].
  destruct (trajectory_indices _ _ _ Et) as [-> ->].
  match goal with
  | |- context [render_frames ?b ?s ?f] =>
      pose proof (render_frames_raises b s f (k, k)) as R;
      pose proof (render_frames_log b s f) as L;
      destruct (render_frames b s f) as [log r]
  end.
  cbn [fst snd] in R, L. destruct L as [Hall _].
  assert (Hr : raised r = true).
  { apply R; [|exact Hfail].
    rewrite enumerate_range0. apply combine_diagonal_in. apply range0_in. exact Hk. }
  destruct r as [frames|e]; [discriminate|].
  cbn [fst snd]. split; [reflexivity|].
  intros file frames fps quality Hin.
  exact (appended_not_written _ _ _ _ _ Hall Hin).
Qed.

(** X12.  When the encoder is called, the frame in position [k] of the
    sequence it is handed is the frame the loop body returned for the
    index [k], with the pose [T[k]] and the time step [k]; the file is
    named after the path type and the flow scale, in the output folder,
    and is written at 25 frames per second with quality 8; the result of
    the run is the result of the encoder. *)
Theorem render_writes_rendered_frames :
  forall (args : Args) (out : string) (scene : Scene) (flow : ndarray spec_float)
         file frames fps quality,
    In (Written file frames fps quality) (fst (run args out scene flow)) ->
    exists T,
      define_camera_path (n_frames args) (SFopp (x_motion args)) = Ok T /\
      Forall2 (fun k frame => frame_of args scene flow T k = Ok frame)
              (range0 (n_frames args)) frames /\
      file = video_file args out /\ fps = 25 /\ quality = 8 /\
      snd (run args out scene flow) = mimwrite file frames fps quality.
Proof.
  intros args out scene flow file frames fps quality. unfold render.
  destruct (define_camera_path (n_frames args) (SFopp (x_motion args))) as [T|e];
    [|intros []].
  destruct (s <- Float.torch_long 0;; e <- Float.torch_long (n_frames args - 1);; Ok (s, e))
    as [[start_index end_index]|e] eqn:Et; [|intros []].
  destruct (trajectory_indices _ _ _ Et) as [-> ->].
  match goal with
  | |- context [render_frames ?b ?s ?f] =>
      pose proof (render_frames_ok b s f) as K;
      pose proof (render_frames_log b s f) as L;
      destruct (render_frames b s f) as [log r]
  end.
  cbn [fst snd] in K, L. destruct L as [Hall _].
  destruct r as [fs|e]; cbn [fst snd]; intros Hin.
  - apply in_app_or in Hin. destruct Hin as [Hin|Hin].
    { exfalso. exact (appended_not_written _ _ _ _ _ Hall Hin). }
    destruct Hin as [E|[]]. injection E as <- <- <- <-.
    destruct (K fs eq_refl) as [new [E1 [_ E3]]]. cbn [app] in E1. subst new.
    exists T. split; [reflexivity|].
    split.
    { rewrite enumerate_range0 in E3.
      apply (combine_diagonal _ _ (fun i t f =>
               render_frame Scene euler compute_scene_flow_for_motion render_pcd scene
                 (true_divide flow (flow_scale args)) (Tensor.map Float.to32 T)
                 (full [5; 5]%nat (Float.of_Z32 1)) "side"%string 0 (n_frames args - 1) i t
               = Ok f)).
      exact E3. }
    repeat split.
  - exfalso. exact (appended_not_written _ _ _ _ _ Hall Hin).
Qed.

(** X13.  On the trajectory of [render], from 0 to [n_frames - 1], the
    frame [index] integrates [index] steps forward and
    [n_frames - index] steps backward, [n_frames] steps in all.  The
    backward pass therefore always makes at least one step, exactly one
    at the last frame, while the forward pass makes none at the first
    frame, where the backward pass makes all [n_frames]. *)
Theorem integrated_flows_share_the_steps :
  forall (flow : ndarray spec_float) (n index : Z),
    0 <= index < n -> n < 2 ^ 63 ->
    integrated_flows euler flow 0 (n - 1) index =
      (flow_f <- euler flow index ;;
       flow_b <- euler (Tensor.map SFopp flow) (n - index) ;;
       Ok (flow_f, flow_b)) /\
    index + (n - index) = n /\
    1 <= n - index <= n /\
    integrated_flows euler flow 0 (n - 1) 0 =
      (flow_f <- euler flow 0 ;;
       flow_b <- euler (Tensor.map SFopp flow) n ;;
       Ok (flow_f, flow_b)) /\
    integrated_flows euler flow 0 (n - 1) (n - 1) =
      (flow_f <- euler flow (n - 1) ;;
       flow_b <- euler (Tensor.map SFopp flow) 1 ;;
       Ok (flow_f, flow_b)).
Proof.
  intros flow n index Hi Hn.
  assert (G : forall i, 0 <= i < n ->
            integrated_flows euler flow 0 (n - 1) i =
            (flow_f <- euler flow i ;;
             flow_b <- euler (Tensor.map SFopp flow) (n - i) ;;
             Ok (flow_f, flow_b))).
  { intros i Hr. unfold integrated_flows.
    rewrite wrap64_sub_wrap64. rewrite !wrap64_small by lia.
    replace (i - 0) with i by lia.
    replace (n - 1 + 1 - i) with (n - i) by lia.
    reflexivity. }
  split; [apply G; exact Hi|].
  split; [lia|]. split; [lia|].
  split.
  - rewrite (G 0) by lia. replace (n - 0) with n by lia. reflexivity.
  - rewrite (G (n - 1)) by lia. replace (n - (n - 1)) with 1 by lia. reflexivity.
Qed.

(** X14.  A frame is produced only for an index the camera path has a
    pose for: when the loop body returns a frame for [middle_index], the
    path [T] has a first dimension and [middle_index] is inside it. *)
Theorem render_frame_needs_pose :
  forall (scene : Scene) (flow T kernel : ndarray spec_float) (path_type : string)
         (start_index end_index middle_index t_step : Z) (frame : ndarray Z),
    render_frame Scene euler compute_scene_flow_for_motion render_pcd scene flow T kernel
                 path_type start_index end_index middle_index t_step = Ok frame ->
    exists d rest,
      shape T = d :: rest /\
      - Z.of_nat d <= middle_index < Z.of_nat d /\
      length (shape frame) = 3%nat.
Proof.
  intros scene flow T kernel path_type start_index end_index middle_index t_step frame H.
  unfold render_frame in H.
  unfold Float.torch_long in H at 1.
  destruct ((- 2 ^ 63 <=? middle_index) && (middle_index <? 2 ^ 63)); cbn [bind] in H;
    [|discriminate].
  step_binds H.
  match goal with
  | E : getitem_int middle_index T = Ok _ |- _ => unfold getitem_int in E; rename E into Eg
  end.
  destruct (shape T) as [|d rest]; [discriminate|].
  exists d, rest. split; [reflexivity|].
  split.
  - destruct (Z.ltb_spec middle_index 0).
    + destruct (Z.leb_spec 0 (middle_index + Z.of_nat d)); [|discriminate]. lia.
    + destruct (Z.leb_spec 0 middle_index); [|discriminate].
      destruct (Z.ltb_spec middle_index (Z.of_nat d)); [|discriminate]. lia.
  - exact (assemble_frame_rank _ _ H).
Qed.

End RenderRun.


Lemma render_failure_writes_nothing_witness :
  raised (snd (render unit euler_integration sample_warp sample_render_pcd_failing
                      sample_camera_path sample_divide sample_format sample_mimwrite
                      sample_args "in/output"%string tt sample_flow)) = true /\
  appended_indices
    (fst (render unit euler_integration sample_warp sample_render_pcd_failing
                 sample_camera_path sample_divide sample_format sample_mimwrite
                 sample_args "in/output"%string tt sample_flow)) = [0].
Proof.
  split.
  - apply (render_failure_writes_nothing unit euler_integration sample_warp
             sample_render_pcd_failing sample_camera_path sample_divide sample_format
             sample_mimwrite sample_args "in/output"%string tt sample_flow 1).
    + cbn. lia.
    + intros T E. injection E as <-. reflexivity.
  - reflexivity.
Defined.

Lemma render_writes_rendered_frames_witness :
  exists file frames T,
    In (Written file frames 25 8) (fst sample_run) /\
    file = "in/output/side_flow_scale=1.0.mp4"%string /\
    sample_camera_path 3 (SFopp (x_motion sample_args)) = Ok T /\
    Forall2
      (fun k frame =>
         render_frame unit euler_integration sample_warp sample_render_pcd tt
           (sample_divide sample_flow (flow_scale sample_args)) (Tensor.map Float.to32 T)
           (full [5; 5]%nat (Float.of_Z32 1)) "side"%string 0 2 k k = Ok frame)
      [0; 1; 2] frames.
Proof.
  assert (E : exists file frames, In (Written file frames 25 8) (fst sample_run)).
  { vm_compute. eexists. eexists. right. right. right. left. reflexivity. }
  destruct E as [file [frames Hin]].
  destruct (render_writes_rendered_frames unit euler_integration sample_warp
              sample_render_pcd sample_camera_path sample_divide sample_format
              sample_mimwrite sample_args "in/output"%string tt sample_flow
              file frames 25 8 Hin) as [T [HT [Hall [Hfile _]]]].
  exists file, frames, T.
  split; [exact Hin|]. split; [exact Hfile|]. split; [exact HT | exact Hall].
Defined.

Lemma integrated_flows_share_the_steps_witness :
  integrated_flows euler_integration sample_flow 0 (60 - 1) 7 =
    (flow_f <- euler_integration sample_flow 7 ;;
     flow_b <- euler_integration (Tensor.map SFopp sample_flow) (60 - 7) ;;
     Ok (flow_f, flow_b)) /\
  integrated_flows euler_integration sample_flow 0 (60 - 1) (60 - 1) =
    (flow_f <- euler_integration sample_flow (60 - 1) ;;
     flow_b <- euler_integration (Tensor.map SFopp sample_flow) 1 ;;
     Ok (flow_f, flow_b)).
Proof.
  destruct (integrated_flows_share_the_steps euler_integration sample_flow 60 7
              ltac:(lia) ltac:(lia))
    as [E [_ [_ [_ Elast]]]].
  split; [exact E | exact Elast].
Defined.

Lemma render_frame_needs_pose_witness :
  exists frame d rest,
    render_frame unit euler_integration sample_warp sample_render_pcd tt sample_flow
                 (full [3; 3]%nat Float.pzero) (full [5; 5]%nat (Float.of_Z32 1))
                 "side"%string 0 2 2 2 = Ok frame /\
    shape (full [3; 3]%nat Float.pzero : ndarray spec_float) = d :: rest /\
    - Z.of_nat d <= 2 < Z.of_nat d /\
    render_frame unit euler_integration sample_warp sample_render_pcd tt sample_flow
                 (full [3; 3]%nat Float.pzero) (full [5; 5]%nat (Float.of_Z32 1))
                 "side"%string 0 2 3 3 = Raise IndexError.
Proof.
  assert (E : exists frame,
             render_frame unit euler_integration sample_warp sample_render_pcd tt sample_flow
               (full [3; 3]%nat Float.pzero) (full [5; 5]%nat (Float.of_Z32 1))
               "side"%string 0 2 2 2 = Ok frame) by (eexists; reflexivity).
  destruct E as [frame E].
  destruct (render_frame_needs_pose unit euler_integration sample_warp sample_render_pcd
              tt sample_flow (full [3; 3]%nat Float.pzero) (full [5; 5]%nat (Float.of_Z32 1))
              "side"%string 0 2 2 2 frame E) as [d [rest [Hs [Hd _]]]].
  exists frame, d, rest.
  split; [exact E|]. split; [exact Hs|]. split; [exact Hd | reflexivity].
Defined.
